(** * CORAAL preparation scripts: transcript cleaning, statistics, metadata

    A shallow embedding of the two scripts of the repository,
    [push_to_huggingface.py] and [verify_stats.py], and the properties
    of their transcript parser, metadata joiner and duration extractor.

    Python text is modelled as a list of characters.  A character is an
    8-bit code point ([ascii]), so the development covers text whose code
    points lie below 256; the character classes used by the scripts
    ([str.isspace], [\s], [\d], [a-zA-Z]) are given on that range. *)

From Stdlib Require Import String Ascii List NArith ZArith QArith Lia.
From stdpp Require Import gmap strings list.
Import ListNotations.

Open Scope string_scope.
Open Scope list_scope.

Abbreviation str := (list ascii).

(** String literals are read as Python [str] values. *)
Coercion list_ascii_of_string : string >-> list.

(** ** Python [str] methods used by the scripts *)
Module PyStr.

Definition TAB : ascii := ascii_of_nat 9.
Definition NL : ascii := ascii_of_nat 10.
Definition CR : ascii := ascii_of_nat 13.
Definition QUOTE : ascii := ascii_of_nat 34.
Definition APOSTROPHE : ascii := ascii_of_nat 39.

Definition code (c : ascii) : N := N_of_ascii c.

Definition in_range (lo hi : N) (c : ascii) : bool :=
  ((lo <=? code c) && (code c <=? hi))%N.

(** [str.isspace] on one character: TAB LF VT FF CR, FS GS RS US, space,
    NEL (0x85) and NBSP (0xA0). *)
Definition isspace (c : ascii) : bool :=
  in_range 9 13 c || in_range 28 32 c || (code c =? 133)%N || (code c =? 160)%N.

(** [str.isdecimal] on one character; below 256 these are the ASCII digits. *)
Definition isdecimal (c : ascii) : bool := in_range 48 57 c.

Fixpoint lstrip (s : str) : str :=
  match s with
  | c :: s' => if isspace c then lstrip s' else s
  | [] => []
  end.

Definition rstrip (s : str) : str := rev (lstrip (rev s)).

(** [s.strip()] *)
Definition strip (s : str) : str := rstrip (lstrip s).

(** [s.split(sep)] for a one-character separator: never empty. *)
Fixpoint split_on (sep : ascii) (s : str) : list str :=
  match s with
  | [] => [[]]
  | c :: s' =>
      if Ascii.eqb c sep then [] :: split_on sep s'
      else match split_on sep s' with
           | w :: ws => (c :: w) :: ws
           | [] => [[c]]
           end
  end.

(** [s.split()]: the maximal runs of non-whitespace characters. *)
Fixpoint split (s : str) : list str :=
  match s with
  | [] => []
  | c :: s' =>
      if isspace c then split s'
      else match s' with
           | [] => [[c]]
           | c' :: _ =>
               if isspace c' then [c] :: split s'
               else match split s' with
                    | w :: ws => (c :: w) :: ws
                    | [] => [[c]]
                    end
           end
  end.

(** [sep.join(l)] *)
Fixpoint join (sep : str) (l : list str) : str :=
  match l with
  | [] => []
  | [w] => w
  | w :: l' => w ++ sep ++ join sep l'
  end.

(** [s.startswith(p)] *)
Fixpoint startswith (s p : str) {struct p} : bool :=
  match p, s with
  | [], _ => true
  | _ :: _, [] => false
  | d :: p', c :: s' => Ascii.eqb c d && startswith s' p'
  end.

(** [s.rfind(c)] for a one-character needle; [None] is Python's -1. *)
Fixpoint rfind (c : ascii) (s : str) : option nat :=
  match s with
  | [] => None
  | d :: s' =>
      match rfind c s' with
      | Some i => Some (S i)
      | None => if Ascii.eqb d c then Some 0 else None
      end
  end.

(** [s.rsplit(sep, 1)] for a one-character separator. *)
Definition rsplit1 (sep : ascii) (s : str) : list str :=
  match rfind sep s with
  | Some i => [take i s; drop (S i) s]
  | None => [s]
  end.

(** Truth value of a string: [not s] is [is_empty s]. *)
Definition is_empty (s : str) : bool :=
  match s with [] => true | _ :: _ => false end.

End PyStr.

(** ** The fragment of Python's [re] the scripts use

    Every pattern of the two scripts is a sequence of character classes,
    each taken once, or repeated greedily with [+] or [*].  Matching
    backtracks the way [re] does: a repetition first takes as many
    characters as it can and gives them back one at a time while the rest
    of the pattern fails. *)
Module Re.

Inductive quant := One | Plus | Star.

Record item := Item { cls : ascii -> bool; rep : quant }.

Definition pattern := list item.

Section Backtrack.
Context {R : Type}.

(** Greedy [cls*] followed by the continuation [k], which receives the
    text taken by the repetition and the text left. *)
Fixpoint star (c : ascii -> bool) (k : str -> str -> option R) (s : str)
  : option R :=
  match s with
  | a :: s' =>
      if c a then
        match star c (fun piece => k (a :: piece)) s' with
        | Some r => Some r
        | None => k [] s
        end
      else k [] s
  | [] => k [] []
  end.
End Backtrack.

(** [pattern.match(s)]: the text taken by each item and the text left
    after the match. *)
Fixpoint match_items (p : pattern) (s : str) : option (list str * str) :=
  match p with
  | [] => Some ([], s)
  | it :: p' =>
      let k piece rest :=
        match match_items p' rest with
        | Some (ps, r) => Some (piece :: ps, r)
        | None => None
        end in
      match rep it with
      | One =>
          match s with
          | a :: s' => if cls it a then k [a] s' else None
          | [] => None
          end
      | Plus =>
          match s with
          | a :: s' =>
              if cls it a then star (cls it) (fun piece => k (a :: piece)) s'
              else None
          | [] => None
          end
      | Star => star (cls it) k s
      end
  end.

(** Number of characters a match at the head of [s] takes. *)
Definition match_length (p : pattern) (s : str) : option nat :=
  match match_items p s with
  | Some (ps, _) => Some (length (concat ps))
  | None => None
  end.

(** [re.search(p, s)]: the items' texts of the leftmost match. *)
Fixpoint search (p : pattern) (s : str) : option (list str) :=
  match match_items p s with
  | Some (ps, _) => Some ps
  | None =>
      match s with
      | [] => None
      | _ :: s' => search p s'
      end
  end.

(** [re.sub(p, repl, s)] for a replacement without group references.
    [skip] counts the characters of the current match still to be
    dropped.  An empty match inserts [repl] and copies one character. *)
Fixpoint sub_from (p : pattern) (repl : str) (skip : nat) (s : str) : str :=
  match skip with
  | S n =>
      match s with
      | _ :: s' => sub_from p repl n s'
      | [] => []
      end
  | 0 =>
      match match_length p s with
      | Some (S n) =>
          repl ++ match s with
                  | _ :: s' => sub_from p repl n s'
                  | [] => []
                  end
      | Some 0 =>
          repl ++ match s with
                  | a :: s' => a :: sub_from p repl 0 s'
                  | [] => []
                  end
      | None =>
          match s with
          | a :: s' => a :: sub_from p repl 0 s'
          | [] => []
          end
      end
  end.

Definition sub (p : pattern) (repl : str) (s : str) : str :=
  sub_from p repl 0 s.

(** *** Character classes and pattern builders *)

Definition chr (c : ascii) : ascii -> bool := fun a => Ascii.eqb a c.

(** [[abc]] *)
Definition any_of (set : str) : ascii -> bool :=
  fun a => existsb (Ascii.eqb a) set.

(** [[^abc]] *)
Definition none_of (set : str) : ascii -> bool :=
  fun a => negb (any_of set a).

Definition upper : ascii -> bool := PyStr.in_range 65 90.
Definition lower : ascii -> bool := PyStr.in_range 97 122.

(** [[a-zA-Z]] *)
Definition letter : ascii -> bool := fun a => lower a || upper a.

(** [\d] and [\s] of a [str] pattern. *)
Definition digit : ascii -> bool := PyStr.isdecimal.
Definition space : ascii -> bool := PyStr.isspace.

(** A literal piece of pattern text. *)
Definition lit (s : str) : pattern := map (fun c => Item (chr c) One) s.

End Re.

(** ** Exceptions, standard output and text files *)
Module Py.

(** The exceptions that can arise in the modelled functions; all are
    subclasses of [Exception].  [IOFailure] stands for what [open] or a
    read raises ([OSError], [UnicodeDecodeError]); the argument is the
    text of [str(e)]. *)
Inductive exn :=
| StopIteration
| IOFailure (msg : str)
| ValueError (msg : str)
| CsvError (msg : str).

(** [str(e)] *)
Definition exn_str (e : exn) : str :=
  match e with
  | StopIteration => []
  | IOFailure msg | ValueError msg | CsvError msg => msg
  end.

Inductive result (A : Type) :=
| Return (a : A)
| Raise (e : exn).
Arguments Return {A} a.
Arguments Raise {A} e.

(** What reading a path does: [open] raises, or the file yields its
    lines (each with its line end) and then ends, or fails with the
    given message once those lines have been yielded. *)
Inductive file :=
| Unreadable (msg : str)
| Readable (lines : list str) (broken : option str).

(** An open text file used as an iterator. *)
Record handle := Handle { pending : list str; failure : option str }.

Definition open (f : file) : result handle :=
  match f with
  | Unreadable msg => Raise (IOFailure msg)
  | Readable lines broken => Return (Handle lines broken)
  end.

(** How iteration stops once the pending lines are used up: normally,
    or with the failure. *)
Definition at_end (h : handle) : result unit :=
  match failure h with
  | Some msg => Raise (IOFailure msg)
  | None => Return tt
  end.

(** [next(f)] *)
Definition next (h : handle) : result (str * handle) :=
  match pending h with
  | line :: rest => Return (line, Handle rest (failure h))
  | [] =>
      match at_end h with
      | Raise e => Raise e
      | Return _ => Raise StopIteration
      end
  end.

(** [for line in f: st = body(st, line)] for a body that cannot raise:
    the state the loop reaches, and how the loop ends. *)
Definition for_lines {S : Type} (body : S -> str -> S) (h : handle) (st : S)
  : S * result unit :=
  (fold_left body (pending h) st, at_end h).

(** Lines written by [print], oldest first. *)
Definition stdout := list str.

(** The number a string of decimal digits denotes. *)
Definition digit_value (c : ascii) : N := (PyStr.code c - 48)%N.

Definition digits_value (s : str) : N :=
  fold_left (fun n c => (10 * n + digit_value c)%N) s 0%N.

(** [float(s)] for [s] made of decimal digits and dots, the only text the
    duration pattern's group can hold: digits with at most one dot are
    accepted, anything else raises [ValueError].  A float is given by the
    rational its literal denotes; Python rounds that rational to the
    nearest double (to [inf] beyond the range of doubles), so equal
    rationals stand for equal floats.  [0.0] is [0]. *)
Definition float (s : str) : result Q :=
  let bad :=
    Raise (ValueError ("could not convert string to float: "
                         ++ [PyStr.APOSTROPHE] ++ s ++ [PyStr.APOSTROPHE])) in
  match PyStr.split_on "." s with
  | [i] =>
      if forallb PyStr.isdecimal i && negb (PyStr.is_empty i)
      then Return (inject_Z (Z.of_N (digits_value i)))
      else bad
  | [i; f] =>
      if forallb PyStr.isdecimal (i ++ f) && negb (PyStr.is_empty (i ++ f))
      then Return (Qred (Z.of_N (digits_value (i ++ f))
                           # Z.to_pos (10 ^ Z.of_nat (length f))))
      else bad
  | _ => bad
  end.

End Py.

(** ** The [csv] and [pathlib] library functions the upload script calls *)
Module Csv.
Import PyStr Py.

(** States of the record parser of [csv.reader], after CPython's [_csv]
    module, for the dialect the script uses: [excel] with the given
    delimiter, that is the double quote as quote character, doubled
    quotes, no escape character, minimal quoting, not strict. *)
Inductive state :=
| START_RECORD | START_FIELD | IN_FIELD
| IN_QUOTED_FIELD | QUOTE_IN_QUOTED_FIELD | EAT_CRNL.

Record parser := Parser { st : state; field : str; fields : list str }.

Definition reset : parser := Parser START_RECORD [] [].

Definition field_limit : N := 131072.

Definition add_char (c : ascii) (p : parser) : result parser :=
  if (field_limit <=? N.of_nat (length (field p)))%N
  then Raise (CsvError "field larger than field limit (131072)")
  else Return (Parser (st p) (field p ++ [c]) (fields p)).

Definition save_field (p : parser) : parser :=
  Parser (st p) [] (fields p ++ [field p]).

Definition goto (s : state) (p : result parser) : result parser :=
  match p with
  | Return p => Return (Parser s (field p) (fields p))
  | Raise e => Raise e
  end.

Definition is_newline (c : ascii) : bool := Ascii.eqb c NL || Ascii.eqb c CR.

(** One step of the parser; [None] is the end-of-line marker fed after
    the characters of each line. *)
Definition process_char (delimiter : ascii) (c : option ascii) (p : parser)
  : result parser :=
  let start_field p :=
    match c with
    | None => goto START_RECORD (Return (save_field p))
    | Some a =>
        if is_newline a then goto EAT_CRNL (Return (save_field p))
        else if Ascii.eqb a QUOTE then goto IN_QUOTED_FIELD (Return p)
        else if Ascii.eqb a delimiter then goto START_FIELD (Return (save_field p))
        else goto IN_FIELD (add_char a p)
    end in
  match st p with
  | START_RECORD =>
      match c with
      | None => Return p
      | Some a =>
          if is_newline a then goto EAT_CRNL (Return p) else start_field p
      end
  | START_FIELD => start_field p
  | IN_FIELD =>
      match c with
      | None => goto START_RECORD (Return (save_field p))
      | Some a =>
          if is_newline a then goto EAT_CRNL (Return (save_field p))
          else if Ascii.eqb a delimiter then goto START_FIELD (Return (save_field p))
          else add_char a p
      end
  | IN_QUOTED_FIELD =>
      match c with
      | None => Return p
      | Some a =>
          if Ascii.eqb a QUOTE then goto QUOTE_IN_QUOTED_FIELD (Return p)
          else add_char a p
      end
  | QUOTE_IN_QUOTED_FIELD =>
      match c with
      | None => goto START_RECORD (Return (save_field p))
      | Some a =>
          if Ascii.eqb a QUOTE then goto IN_QUOTED_FIELD (add_char a p)
          else if Ascii.eqb a delimiter then goto START_FIELD (Return (save_field p))
          else if is_newline a then goto EAT_CRNL (Return (save_field p))
          else goto IN_FIELD (add_char a p)
      end
  | EAT_CRNL =>
      match c with
      | None => goto START_RECORD (Return p)
      | Some a =>
          if is_newline a then Return p
          else Raise (CsvError "new-line character seen in unquoted field - do you need to open the file with newline=''?")
      end
  end.

Fixpoint feed (delimiter : ascii) (cs : list (option ascii)) (p : parser)
  : result parser :=
  match cs with
  | [] => Return p
  | c :: cs' =>
      match process_char delimiter c p with
      | Return p' => feed delimiter cs' p'
      | Raise e => Raise e
      end
  end.

Definition in_quoted (p : parser) : bool :=
  match st p with IN_QUOTED_FIELD => true | _ => false end.

Definition at_start (p : parser) : bool :=
  match st p with START_RECORD => true | _ => false end.

(** Iterating [csv.reader(f, delimiter=...)] to its end: the records it
    yields and how the iteration stops.  A record is complete when the
    parser is back in [START_RECORD] at the end of a line; input that
    ends inside a record yields what was read. *)
Fixpoint read_records (delimiter : ascii) (lines : list str)
    (failure : option str) (p : parser) (acc : list (list str))
  : list (list str) * result unit :=
  match lines with
  | [] =>
      match failure with
      | Some msg => (acc, Raise (IOFailure msg))
      | None =>
          if negb (is_empty (field p)) || in_quoted p
          then (acc ++ [fields (save_field p)], Return tt)
          else (acc, Return tt)
      end
  | line :: rest =>
      match feed delimiter (map Some line ++ [None]) p with
      | Raise e => (acc, Raise e)
      | Return p' =>
          if at_start p'
          then read_records delimiter rest failure reset (acc ++ [fields p'])
          else read_records delimiter rest failure p' acc
      end
  end.

Definition reader (delimiter : ascii) (h : handle)
  : list (list str) * result unit :=
  read_records delimiter (pending h) (failure h) reset [].

(** Values of a row of [csv.DictReader]: a field, [None] for a column
    the record is too short for, or the list of surplus fields, which
    sits under the key [None]. *)
Inductive value :=
| VStr (s : str)
| VNone
| VList (l : list str).

(** [DictReader.__next__] on one non-empty record. *)
Definition make_row (fieldnames record : list str)
  : gmap (option str) value :=
  let d := fold_left (fun d kv => <[Some (fst kv) := VStr (snd kv)]> d)
             (combine fieldnames record) (∅ : gmap (option str) value) in
  let lf := length fieldnames in
  let lr := length record in
  if (lf <? lr)%nat then <[None := VList (drop lf record)]> d
  else if (lr <? lf)%nat
       then fold_left (fun d key => <[Some key := VNone]> d)
              (drop lr fieldnames) d
       else d.

(** Iterating [csv.DictReader(f, delimiter=...)]: the first record is
    the header, empty records are passed over. *)
Definition DictReader (delimiter : ascii) (h : handle)
  : list (gmap (option str) value) * result unit :=
  match reader delimiter h with
  | ([], r) => ([], r)
  | (fieldnames :: records, r) =>
      (map (make_row fieldnames)
         (List.filter (fun rec => negb (bool_decide (rec = []))) records), r)
  end.

End Csv.

Module Pathlib.
Import PyStr.

(** Components of a POSIX path: empty and [.] components are dropped. *)
Definition components (p : str) : list str :=
  List.filter (fun c => negb (is_empty c) && negb (bool_decide (c = ["."%char])))
    (split_on "/" p).

(** [Path(p).name] *)
Definition name (p : str) : str := List.last (components p) [].

(** [Path(p).stem] (Python 3.4 to 3.13): the name up to its last dot,
    unless that dot starts or ends the name. *)
Definition stem (p : str) : str :=
  let n := name p in
  match rfind "." n with
  | Some i => if (0 <? i)%nat && (i <? length n - 1)%nat then take i n else n
  | None => n
  end.

(** [Path(p).suffix] *)
Definition suffix (p : str) : str := drop (length (stem p)) (name p).

(** [str(Path(p).with_suffix(suf))] for a path string that ends with its
    name, as the paths a glob yields do. *)
Definition with_suffix (p suf : str) : str :=
  take (length p - length (suffix p)) p ++ suf.

End Pathlib.

(** ** [push_to_huggingface.py] *)
Module PushToHuggingface.
Import PyStr Py.

(** [[\[\]]] *)
Definition bracket_re : Re.pattern := [Re.Item (Re.any_of "[]") Re.One].

(** [<[^>]+>] *)
Definition angle_re : Re.pattern :=
  Re.lit "<" ++ [Re.Item (Re.none_of ">") Re.Plus] ++ Re.lit ">".

(** [/RD-[^/]+/] *)
Definition redaction_re : Re.pattern :=
  Re.lit "/RD-" ++ [Re.Item (Re.none_of "/") Re.Plus] ++ Re.lit "/".

(** [\([a-zA-Z]+\)] *)
Definition descriptor_re : Re.pattern :=
  Re.lit "(" ++ [Re.Item Re.letter Re.Plus] ++ Re.lit ")".

(** The four substitutions and the whitespace clean-up applied to the
    content column of one line. *)
Definition clean_content (content : str) : str :=
  let content := Re.sub bracket_re [] content in
  let content := Re.sub angle_re [] content in
  let content := Re.sub redaction_re [] content in
  let content := Re.sub descriptor_re [] content in
  join " " (split content).

(** Body of the loop over the lines; [texts] is the list being built. *)
Definition text_line (texts : list str) (line : str) : list str :=
  let parts := split_on TAB (strip line) in
  if (4 <=? length parts)%nat then
    let content := nth 3 parts [] in
    if startswith content "(pause" then texts
    else if is_empty content then texts
    else
      let content := clean_content content in
      if is_empty content then texts else texts ++ [content]
  else texts.

(** The [try] block: open, skip the header, loop. *)
Definition extract_text_try (f : file) (texts : list str)
  : list str * result unit :=
  match open f with
  | Raise e => (texts, Raise e)
  | Return h =>
      match next h with
      | Raise e => (texts, Raise e)
      | Return (_, h) => for_lines text_line h texts
      end
  end.

(** [extract_text_from_txt(txt_path)] reading a file that behaves as [f]:
    the returned string and the lines printed. *)
Definition extract_text_from_txt (txt_path : str) (f : file) : str * stdout :=
  match extract_text_try f [] with
  | (_, Raise e) =>
      ([], ["Error reading " ++ txt_path ++ ": " ++ exn_str e])
  | (texts, Return _) => (join " " texts, [])
  end.

(** *** Metadata *)

(** [row.get('CORAAL.File', '')] followed by the truth test: the
    identifier when it is a non-empty string.  A list never sits under a
    string key. *)
Definition row_file_id (row : gmap (option str) Csv.value) : option str :=
  match row !! Some ("CORAAL.File" : str) with
  | Some (Csv.VStr file_id) => if is_empty file_id then None else Some file_id
  | _ => None
  end.

(** Body of the loop over the rows. *)
Definition add_row (metadata_dict : gmap str (gmap (option str) Csv.value))
    (row : gmap (option str) Csv.value)
  : gmap str (gmap (option str) Csv.value) :=
  match row_file_id row with
  | Some file_id => <[file_id := row]> metadata_dict
  | None => metadata_dict
  end.

(** [load_metadata(component_dir, component)], given the files the glob
    [<component>_metadata_*.txt] finds, in the order it finds them.  The
    progress lines it prints are left out. *)
Definition load_metadata (metadata_files : list (str * file))
  : gmap str (gmap (option str) Csv.value) :=
  match metadata_files with
  | [] => ∅
  | (_, f) :: _ =>
      match open f with
      | Raise _ => ∅
      | Return h =>
          match Csv.DictReader TAB h with
          | (rows, Return _) => fold_left add_row rows ∅
          | (_, Raise _) => ∅
          end
      end
  end.

(** [parse_filename(filename)] *)
Definition parse_filename (filename : str) : str :=
  let base := Pathlib.stem filename in
  let parts := rsplit1 "_" base in
  match parts with
  | [file_id; _] => file_id
  | _ => base
  end.

(** *** Samples *)

(** Body of the loop over the audio files of one component: [None] when
    the transcript is missing ([continue]), else the sample.  [txt] is
    the behaviour of the sibling [.txt] file when it exists, [txt_path]
    its path.  The warnings printed on the way are left out. *)
Definition collect_sample
    (metadata_dict : gmap str (gmap (option str) Csv.value))
    (wav_file txt_path : str) (txt : option file)
  : option (gmap (option str) Csv.value) :=
  match txt with
  | None => None
  | Some f =>
      let text := fst (extract_text_from_txt txt_path f) in
      let full_file_id := Pathlib.stem wav_file in
      let file_metadata := default ∅ (metadata_dict !! full_file_id) in
      let sample : gmap (option str) Csv.value :=
        <[Some ("file_id" : str) := Csv.VStr full_file_id]>
          (<[Some ("text" : str) := Csv.VStr text]>
             {[Some ("audio" : str) := Csv.VStr wav_file]}) in
      (* sample.update(file_metadata) *)
      Some (file_metadata ∪ sample)
  end.

(** What the script sees of one component directory. *)
Record directory := Directory {
  metadata_files : list (str * file);  (* glob <component>_metadata_*.txt *)
  wav_files : list str;                (* glob *.wav, in enumeration order *)
  txt_file : str -> option file        (* a transcript path, when it exists *)
}.

(** [l[:n]] *)
Definition slice_to {A : Type} (n : Z) (l : list A) : list A :=
  if (0 <=? n)%Z then take (Z.to_nat n) l
  else take (length l - Z.to_nat (- n)) l.

Definition components : list str :=
  [ "ATL" : str; "DCA" : str; "DCB" : str; "DTA" : str;
    "LES" : str; "PRV" : str; "ROC" : str; "VLD" : str ].

(** The samples of one component directory. *)
Definition collect_component (dir : directory) (max_per_component : option Z)
  : list (gmap (option str) Csv.value) :=
  let metadata_dict := load_metadata (metadata_files dir) in
  let wav_files :=
    match max_per_component with
    | Some n => slice_to n (wav_files dir)
    | None => wav_files dir
    end in
  fold_left
    (fun samples wav_file =>
       let txt_path := Pathlib.with_suffix wav_file ".txt" in
       match collect_sample metadata_dict wav_file txt_path
               (txt_file dir txt_path) with
       | Some sample => samples ++ [sample]
       | None => samples
       end)
    wav_files [].

(** [collect_dataset_samples(base_dir, max_per_component)]; [fs] gives
    the directory of a component when it exists under [base_dir]. *)
Definition collect_dataset_samples (fs : str -> option directory)
    (max_per_component : option Z)
  : gmap str (list (gmap (option str) Csv.value)) :=
  fold_left
    (fun all_samples component =>
       match fs component with
       | None => all_samples
       | Some dir =>
           match collect_component dir max_per_component with
           | [] => all_samples
           | samples => <[component := samples]> all_samples
           end
       end)
    components ∅.

(** *** Dataset schemas *)

(** The two feature types the script declares: [Audio(sampling_rate=None)]
    and [Value('string')]. *)
Inductive feature :=
| AudioFeature
| StringFeature.

(** The union of the keys of the samples of one component. *)
Definition all_keys (samples : list (gmap (option str) Csv.value))
  : gset (option str) :=
  fold_left (fun keys sample => keys ∪ dom sample) samples ∅.

(** The three columns every schema starts with. *)
Definition base_features : gmap (option str) feature :=
  <[Some ("file_id" : str) := StringFeature]>
    (<[Some ("text" : str) := StringFeature]>
       {[Some ("audio" : str) := AudioFeature]}).

(** The [features] dictionary built for one component: the loop over
    [all_keys] adds the keys that are not there yet as strings. *)
Definition component_features (samples : list (gmap (option str) Csv.value))
  : gmap (option str) feature :=
  set_fold
    (fun key features =>
       match features !! key with
       | Some _ => features
       | None => <[key := StringFeature]> features
       end)
    base_features (all_keys samples).

(** [all_samples.items()] for the dictionary [collect_dataset_samples]
    returns.  A Python dictionary is iterated in the order of insertion,
    and [collect_dataset_samples] inserts its keys in the order of
    [components], each at most once. *)
Definition items (all_samples : gmap str (list (gmap (option str) Csv.value)))
  : list (str * list (gmap (option str) Csv.value)) :=
  omap (fun component =>
          (fun samples => (component, samples)) <$> all_samples !! component)
    components.

Section Datasets.
(** The datasets of the library and the exceptions it raises. *)
Variable dataset : Type.
Variable error : Type.
(** [Dataset.from_list(samples, features=Features(features))]: the library
    call gives a dataset or raises. *)
Variable from_list :
  list (gmap (option str) Csv.value) -> gmap (option str) feature
  -> dataset + error.

(** The loop of [create_datasets] over the items that are left, with the
    [component_datasets] built so far.  The library call is not guarded:
    what it raises ends the loop and the function.  The progress lines are
    left out. *)
Fixpoint create_datasets_loop
    (all_items : list (str * list (gmap (option str) Csv.value)))
    (component_datasets : gmap str dataset) : gmap str dataset + error :=
  match all_items with
  | [] => inl component_datasets
  | (component, samples) :: rest =>
      match samples with
      | [] => create_datasets_loop rest component_datasets
      | _ :: _ =>
          match from_list samples (component_features samples) with
          | inl ds =>
              create_datasets_loop rest
                (<[component := ds]> component_datasets)
          | inr e => inr e
          end
      end
  end.

(** [create_datasets(all_samples)], on the items of [all_samples] in the
    order of the dictionary. *)
Definition create_datasets
    (all_items : list (str * list (gmap (option str) Csv.value)))
  : gmap str dataset + error :=
  create_datasets_loop all_items ∅.

End Datasets.

End PushToHuggingface.

(** ** [verify_stats.py]: word counts and durations *)
Module VerifyStats.
Import PyStr Py.

(** [[<\[\]/]] *)
Definition markup_re : Re.pattern := [Re.Item (Re.any_of "<[]/") Re.One].

(** [/RD-[A-Z]+-\d+/] *)
Definition redaction_re : Re.pattern :=
  Re.lit "/RD-" ++ [Re.Item Re.upper Re.Plus] ++ Re.lit "-"
    ++ [Re.Item Re.digit Re.Plus] ++ Re.lit "/".

(** The words counted for the content column of one line. *)
Definition content_words (content : str) : list str :=
  let content := Re.sub markup_re " " content in
  let content := Re.sub redaction_re [] content in
  let words := split content in
  List.filter (fun w => negb (is_empty w) && negb (startswith w "RD-")) words.

(** Body of the loop over the lines. *)
Definition count_line (word_count : nat) (line : str) : nat :=
  let parts := split_on TAB (strip line) in
  if (4 <=? length parts)%nat then
    let content := nth 3 parts [] in
    if startswith content "(pause" then word_count
    else if is_empty content then word_count
    else word_count + length (content_words content)
  else word_count.

Definition count_words_try (f : file) (word_count : nat)
  : nat * result unit :=
  match open f with
  | Raise e => (word_count, Raise e)
  | Return h =>
      match next h with
      | Raise e => (word_count, Raise e)
      | Return (_, h) => for_lines count_line h word_count
      end
  end.

(** [count_words_from_txt(txt_path)]: the handler prints and falls
    through to the [return word_count] that ends the function. *)
Definition count_words_from_txt (txt_path : str) (f : file) : nat * stdout :=
  match count_words_try f 0 with
  | (word_count, Raise e) =>
      (word_count, ["Error reading " ++ txt_path ++ ": " ++ exn_str e])
  | (word_count, Return _) => (word_count, [])
  end.

(** [xmax\s*=\s*([\d.]+)]; the group is the last item. *)
Definition xmax_re : Re.pattern :=
  Re.lit "xmax" ++ [Re.Item Re.space Re.Star] ++ Re.lit "="
    ++ [Re.Item Re.space Re.Star]
    ++ [Re.Item (fun a => Re.digit a || Re.chr "." a) Re.Plus].

(** [match.group(1)] *)
Definition group1 (pieces : list str) : str := List.last pieces [].

(** The loop over the lines: [Some r] when the body returns or raises,
    [None] when the lines run out. *)
Fixpoint scan_xmax (lines : list str) : option (result Q) :=
  match lines with
  | [] => None
  | line :: rest =>
      if startswith (strip line) "xmax =" then
        match Re.search xmax_re line with
        | Some pieces => Some (float (group1 pieces))
        | None => scan_xmax rest
        end
      else scan_xmax rest
  end.

Definition get_duration_try (f : file) : result Q :=
  match open f with
  | Raise e => Raise e
  | Return h =>
      match scan_xmax (pending h) with
      | Some r => r
      | None =>
          match at_end h with
          | Raise e => Raise e
          | Return _ => Return 0%Q
          end
      end
  end.

(** [get_duration_from_textgrid(textgrid_path)] *)
Definition get_duration_from_textgrid (textgrid_path : str) (f : file)
  : Q * stdout :=
  match get_duration_try f with
  | Return d => (d, [])
  | Raise e =>
      (0%Q, ["Error reading " ++ textgrid_path ++ ": " ++ exn_str e])
  end.

(** *** Corpus statistics *)

(** Python floats enter [analyze_corpus] through three operations: the
    double nearest to the value a duration stands for, addition and
    division.  They are kept abstract. *)
Section Analyze.
Variable float_t : Type.
Variable of_Q : Q -> float_t.
Variable fadd : float_t -> float_t -> float_t.
Variable fdiv : float_t -> float_t -> float_t.

(** One entry of [results]. *)
Record stats := Stats {
  words : nat;
  hours : float_t;
  txt_files : nat;
  textgrid_files : nat
}.

(** What the script sees of one component directory: the files the globs
    [*.txt] and [*.TextGrid] find, in enumeration order, each with its
    behaviour when read. *)
Record listing := Listing {
  txts : list (str * file);
  textgrids : list (str * file)
}.

(** The two loops over the files of one component: the totals, and the
    lines printed by the readers. *)
Definition count_all (files : list (str * file)) : nat * stdout :=
  fold_left
    (fun acc pf =>
       let r := count_words_from_txt (fst pf) (snd pf) in
       (fst acc + fst r, snd acc ++ snd r))
    files (0, []).

Definition duration_all (files : list (str * file)) : float_t * stdout :=
  fold_left
    (fun acc pf =>
       let r := get_duration_from_textgrid (fst pf) (snd pf) in
       (fadd (fst acc) (of_Q (fst r)), snd acc ++ snd r))
    files (of_Q 0, []).

Definition analyze_component (dir : listing) : stats * stdout :=
  let w := count_all (txts dir) in
  let d := duration_all (textgrids dir) in
  (Stats (fst w) (fdiv (fst d) (of_Q 3600))
     (length (txts dir)) (length (textgrids dir)),
   snd w ++ snd d).

Definition components : list str :=
  [ "ATL" : str; "DCA" : str; "DCB" : str; "DTA" : str;
    "LES" : str; "PRV" : str; "ROC" : str; "VLD" : str ].

(** Body of the loop of [analyze_corpus] over the components. *)
Definition analyze_step (fs : str -> option listing)
    (acc : gmap str stats * stdout) (component : str)
  : gmap str stats * stdout :=
  match fs component with
  | None =>
      (fst acc,
       snd acc ++ ["Warning: " ++ component ++ " directory not found"])
  | Some dir =>
      let r := analyze_component dir in
      (<[component := fst r]> (fst acc), snd acc ++ snd r)
  end.

(** [analyze_corpus(base_dir)]; [fs] gives the listing of a component
    when its directory exists under [base_dir]. *)
Definition analyze_corpus (fs : str -> option listing)
  : gmap str stats * stdout :=
  fold_left (analyze_step fs) components (∅, []).

End Analyze.

End VerifyStats.


Import PyStr Py.

(** ** Vocabulary of the statements *)

(** The content column of a line: field 3 of the stripped line, and the
    empty string when the line has fewer than four fields. *)
Definition content_of (line : str) : str :=
  nth 3 (split_on TAB (strip line)) [].

(** A transcript line with the given content in its fourth field. *)
Definition transcript_line (content : str) : str :=
  "ATL_se0_ag1_f_01_1" ++ [TAB] ++ "0.5" ++ [TAB] ++ "1.5" ++ [TAB]
    ++ content ++ [NL].

(** The characters the group of the duration pattern accepts. *)
Definition numeric (a : ascii) : bool := Re.digit a || Re.chr "." a.

(** A line the duration extractor passes over. *)
Definition no_xmax (line : str) : Prop :=
  startswith (strip line) "xmax =" = false.

(** The line printed by the handlers of the three readers. *)
Definition error_line (path msg : str) : str :=
  "Error reading " ++ path ++ ": " ++ msg.

(** The metadata table of the example: a header and one data row. *)
Definition example_table : file :=
  Readable [ "CORAAL.File" ++ [TAB] ++ "Age" ++ [TAB] ++ "Gender" ++ [NL];
             "ATL_se0_ag1_f_01" ++ [TAB] ++ "19" ++ [TAB] ++ "f" ++ [NL] ]
    None.

(** [{'CORAAL.File': 'ATL_se0_ag1_f_01', 'Age': '19', 'Gender': 'f'}] *)
Definition example_row : gmap (option str) Csv.value :=
  <[Some ("CORAAL.File" : str) := Csv.VStr "ATL_se0_ag1_f_01"]>
    (<[Some ("Age" : str) := Csv.VStr "19"]>
       {[Some ("Gender" : str) := Csv.VStr "f"]}).

(** The same table followed by a row whose identifier field is empty. *)
Definition example_table_with_blank_id : file :=
  Readable [ "CORAAL.File" ++ [TAB] ++ "Age" ++ [TAB] ++ "Gender" ++ [NL];
             "ATL_se0_ag1_f_01" ++ [TAB] ++ "19" ++ [TAB] ++ "f" ++ [NL];
             [TAB] ++ "30" ++ [TAB] ++ "m" ++ [NL] ]
    None.

(** A table whose identifier column comes last, with a record too short to
    reach it. *)
Definition example_table_with_short_row : file :=
  Readable [ "Age" ++ [TAB] ++ "Gender" ++ [TAB] ++ "CORAAL.File" ++ [NL];
             "30" ++ [TAB] ++ "m" ++ [NL] ]
    None.

(** [{'Age': '19', 'Gender': 'f'}] *)
Definition example_row_without_id : gmap (option str) Csv.value :=
  <[Some ("Age" : str) := Csv.VStr "19"]>
    {[Some ("Gender" : str) := Csv.VStr "f"]}.

(** A transcript: the header line and two utterances. *)
Definition example_transcript : file :=
  Readable [ "Line" ++ [TAB] ++ "Spkr" ++ [TAB] ++ "StTime" ++ [TAB]
               ++ "Content" ++ [TAB] ++ "EnTime" ++ [NL];
             transcript_line "hello there";
             transcript_line "(pause 0.42)" ]
    None.

(** A corpus with the single component [ATL], holding one recording, its
    transcript and the example metadata table. *)
Definition example_fs (component : str) : option PushToHuggingface.directory :=
  if bool_decide (component = "ATL") then
    Some (PushToHuggingface.Directory
            [("ATL/ATL_metadata_2020.05.txt" : str, example_table)]
            ["ATL/ATL_se0_ag1_f_01_1.wav" : str]
            (fun p => if bool_decide (p = "ATL/ATL_se0_ag1_f_01_1.txt")
                      then Some example_transcript else None))
  else None.

(** The sample the upload pipeline builds for that recording. *)
Definition example_sample : gmap (option str) Csv.value :=
  <[Some ("file_id" : str) := Csv.VStr "ATL_se0_ag1_f_01_1"]>
    (<[Some ("text" : str) := Csv.VStr "hello there"]>
       {[Some ("audio" : str) := Csv.VStr "ATL/ATL_se0_ag1_f_01_1.wav"]}).

(** [' '.join(s.split())]: the whitespace clean-up of text mode. *)
Definition normalize (s : str) : str := join " " (split s).

(** What the clean-up emits after a character that is not whitespace,
    when [s] is the text that follows it. *)
Definition after_char (s : str) : str :=
  match s with
  | [] => []
  | c :: _ =>
      if isspace c then
        match split s with
        | [] => []
        | _ :: _ => " " ++ normalize s
        end
      else normalize s
  end.

(** A token: a non-empty run of characters that are not whitespace. *)
Definition token (w : str) : Prop :=
  w <> [] /\ Forall (fun a => isspace a = false) w.

(** The markup characters that make the two modes differ. *)
Definition markup_free (content : str) : Prop :=
  Forall (fun a => Re.any_of "[]</(" a = false) content.

(** An angle-bracket span: [<], some characters other than [>], [>]. *)
Definition angle_span (s : str) : Prop :=
  exists pre mid post,
    s = pre ++ "<" ++ mid ++ ">" ++ post
    /\ mid <> [] /\ ~ In ">"%char mid.

(** A redaction span: [/RD-], some characters other than [/], [/]. *)
Definition redaction_span (s : str) : Prop :=
  exists pre mid post,
    s = pre ++ "/RD-" ++ mid ++ "/" ++ post
    /\ mid <> [] /\ ~ In "/"%char mid.

(** A parenthesized descriptor: one word of letters between parentheses. *)
Definition descriptor_span (s : str) : Prop :=
  exists pre mid post,
    s = pre ++ "(" ++ mid ++ ")" ++ post
    /\ mid <> [] /\ Forall (fun a => Re.letter a = true) mid.

(** Content without markup for text mode to strip. *)
Definition already_clean (s : str) : Prop :=
  ~ In "["%char s /\ ~ In "]"%char s
  /\ ~ angle_span s /\ ~ redaction_span s /\ ~ descriptor_span s.

(** A transcript line that is a pause, or whose content has no markup
    character and no token beginning with [RD-]. *)
Definition plain_line (line : str) : Prop :=
  startswith (content_of line) "(pause" = true
  \/ (markup_free (content_of line)
      /\ Forall (fun w => startswith w "RD-" = false)
           (split (content_of line))).

(** The inside of a redaction token such as [NAME-2]: no markup character
    of word-count mode. *)
Definition redaction_text (mid : str) : Prop :=
  Forall (fun a => Re.any_of "<[]/" a = false) mid.

(** The example table followed by a second row for the same identifier. *)
Definition example_table_with_duplicate : file :=
  Readable [ "CORAAL.File" ++ [TAB] ++ "Age" ++ [TAB] ++ "Gender" ++ [NL];
             "ATL_se0_ag1_f_01" ++ [TAB] ++ "19" ++ [TAB] ++ "f" ++ [NL];
             "ATL_se0_ag1_f_01" ++ [TAB] ++ "20" ++ [TAB] ++ "f" ++ [NL] ]
    None.

(** The audio files [collect_component] goes through: all of them, or
    the slice the cap leaves. *)
Definition capped (max_per_component : option Z) (wavs : list str) : list str :=
  match max_per_component with
  | Some n => PushToHuggingface.slice_to n wavs
  | None => wavs
  end.

(** The sample of an audio file that has a transcript and no metadata. *)
Definition bare_sample (wav_file text : str) : gmap (option str) Csv.value :=
  <[Some ("file_id" : str) := Csv.VStr (Pathlib.stem wav_file)]>
    (<[Some ("text" : str) := Csv.VStr text]>
       {[Some ("audio" : str) := Csv.VStr wav_file]}).

(** The directory of the example corpus without its metadata table. *)
Definition example_dir_without_metadata : PushToHuggingface.directory :=
  PushToHuggingface.Directory []
    ["ATL/ATL_se0_ag1_f_01_1.wav" : str]
    (fun p => if bool_decide (p = "ATL/ATL_se0_ag1_f_01_1.txt")
              then Some example_transcript else None).

(** A line of a table, without its line end, that the csv reader takes
    field by field: no double quote, no line break inside, and no field
    beyond the reader's field size limit. *)
Definition unquoted (s : str) : Prop :=
  ~ In QUOTE s /\ ~ In NL s /\ ~ In CR s
  /\ Forall (fun w => (N.of_nat (length w) <= 131072)%N) (split_on TAB s).

(** The record of such a line: its tab-separated fields, and no field at
    all for a blank line. *)
Definition record_of (s : str) : list str :=
  match s with
  | [] => []
  | _ :: _ => split_on TAB s
  end.

(** A file that yields the given lines, each ended by a line feed, and
    then ends. *)
Definition table_file (lines : list str) : file :=
  Readable (map (fun s => s ++ [NL]) lines) None.

(** A character the csv reader copies or takes as the delimiter. *)
Definition plain_char (c : ascii) : Prop := c <> QUOTE /\ c <> NL /\ c <> CR.

(** The parser is at the start of a record or inside an unquoted field. *)
Definition field_state (p : Csv.parser) : Prop :=
  Csv.st p = Csv.START_RECORD \/ Csv.st p = Csv.START_FIELD
  \/ Csv.st p = Csv.IN_FIELD.

(** A field within the reader's field size limit. *)
Definition short (w : str) : Prop := (N.of_nat (length w) <= 131072)%N.

(** * Properties *)

(** ** Substitution *)
Section SubLemmas.

(** A pattern that starts with a single character class finds nothing in
    a text without characters of that class. *)
Lemma sub_first_class_absent (c : ascii -> bool) (p : Re.pattern)
    (repl s : str) :
  Forall (fun a => c a = false) s ->
  Re.sub (Re.Item c Re.One :: p) repl s = s.
Proof.
  unfold Re.sub. induction 1 as [|a s Ha _ IH].
  - reflexivity.
  - cbn [Re.sub_from]. unfold Re.match_length at 1.
    cbn [Re.match_items Re.rep Re.cls]. rewrite Ha. now rewrite IH.
Qed.

(** Replacing a single class by one character is a character map. *)
Lemma sub_class_map (c : ascii -> bool) (r : ascii) (s : str) :
  Re.sub [Re.Item c Re.One] [r] s = map (fun a => if c a then r else a) s.
Proof.
  unfold Re.sub. induction s as [|a s IH].
  - reflexivity.
  - cbn [Re.sub_from map]. unfold Re.match_length at 1.
    cbn [Re.match_items Re.rep Re.cls]. destruct (c a); cbn.
    + destruct s; [reflexivity | now rewrite <- IH].
    + now rewrite IH.
Qed.

(** Deleting a single class is a filter. *)
Lemma sub_class_filter (c : ascii -> bool) (s : str) :
  Re.sub [Re.Item c Re.One] [] s = List.filter (fun a => negb (c a)) s.
Proof.
  unfold Re.sub. induction s as [|a s IH].
  - reflexivity.
  - cbn [Re.sub_from List.filter]. unfold Re.match_length at 1.
    cbn [Re.match_items Re.rep Re.cls]. destruct (c a); cbn.
    + destruct s; [reflexivity | now rewrite <- IH].
    + now rewrite IH.
Qed.

End SubLemmas.

(** ** The transcript line parser *)

Lemma text_line_app (texts : list str) (line : str) :
  PushToHuggingface.text_line texts line
  = texts ++ PushToHuggingface.text_line [] line.
Proof.
  unfold PushToHuggingface.text_line.
  repeat match goal with
         | |- context [if ?b then _ else _] => destruct b
         end; cbn; now rewrite ?app_nil_r.
Qed.

Lemma count_line_add (word_count : nat) (line : str) :
  VerifyStats.count_line word_count line
  = word_count + VerifyStats.count_line 0 line.
Proof.
  unfold VerifyStats.count_line.
  repeat match goal with
         | |- context [if ?b then _ else _] => destruct b
         end; lia.
Qed.

(** C5: a line whose fourth field is
    [[he] <laugh> said /RD-NAME-1/ (breathy) hello] contributes the text
    [he said hello]; the five steps, in the order the code applies them,
    give the intermediate strings listed. *)
Theorem C5_markup_example (texts : list str) (line : str) :
  (4 <= length (split_on TAB (strip line)))%nat ->
  content_of line = "[he] <laugh> said /RD-NAME-1/ (breathy) hello" ->
  let c0 : str := "[he] <laugh> said /RD-NAME-1/ (breathy) hello" in
  let c1 := Re.sub PushToHuggingface.bracket_re [] c0 in
  let c2 := Re.sub PushToHuggingface.angle_re [] c1 in
  let c3 := Re.sub PushToHuggingface.redaction_re [] c2 in
  let c4 := Re.sub PushToHuggingface.descriptor_re [] c3 in
  c1 = "he <laugh> said /RD-NAME-1/ (breathy) hello"
  /\ c2 = "he  said /RD-NAME-1/ (breathy) hello"
  /\ c3 = "he  said  (breathy) hello"
  /\ c4 = "he  said   hello"
  /\ join " " (split c4) = "he said hello"
  /\ PushToHuggingface.clean_content c0 = "he said hello"
  /\ PushToHuggingface.text_line texts line = texts ++ ["he said hello" : str].
Proof.
  intros Hlen Hc. cbv zeta.
  repeat split; try (vm_compute; reflexivity).
  rewrite text_line_app. f_equal.
  unfold PushToHuggingface.text_line. fold (content_of line).
  apply Nat.leb_le in Hlen. rewrite Hlen, Hc.
  vm_compute. reflexivity.
Qed.

Lemma C5_markup_example_witness :
  PushToHuggingface.text_line []
    (transcript_line "[he] <laugh> said /RD-NAME-1/ (breathy) hello")
  = ["he said hello" : str].
Proof.
  apply (C5_markup_example []
           (transcript_line "[he] <laugh> said /RD-NAME-1/ (breathy) hello")).
  - vm_compute. lia.
  - vm_compute. reflexivity.
Defined.

(** C7: a line whose content is empty or begins with [(pause] leaves both
    accumulators as they were: no text fragment is appended and the word
    count does not move. *)
Theorem C7_pause_and_empty_lines_skipped (texts : list str) (word_count : nat)
    (line : str) :
  content_of line = [] \/ startswith (content_of line) "(pause" = true ->
  PushToHuggingface.text_line texts line = texts
  /\ VerifyStats.count_line word_count line = word_count.
Proof.
  intros H.
  unfold PushToHuggingface.text_line, VerifyStats.count_line.
  fold (content_of line).
  destruct (4 <=? length (split_on TAB (strip line)))%nat; [|now split].
  destruct H as [H|H]; rewrite H.
  - now split.
  - now split.
Qed.

Lemma C7_pause_and_empty_lines_skipped_witness :
  PushToHuggingface.text_line ["so" : str] (transcript_line "(pause 0.42)")
  = ["so" : str]
  /\ VerifyStats.count_line 7 (transcript_line "(pause 0.42)") = 7.
Proof.
  apply (C7_pause_and_empty_lines_skipped ["so" : str] 7
           (transcript_line "(pause 0.42)")).
  right. vm_compute. reflexivity.
Defined.

(** ** Reading failures *)

(** The text extractor gives the empty string whenever opening or reading
    fails, whatever was read before. *)
Lemma extract_text_unreadable (txt_path msg : str) :
  PushToHuggingface.extract_text_from_txt txt_path (Unreadable msg)
  = ([], ["Error reading " ++ txt_path ++ ": " ++ msg]).
Proof. reflexivity. Qed.

Lemma extract_text_broken (txt_path msg : str) (lines : list str) :
  PushToHuggingface.extract_text_from_txt txt_path (Readable lines (Some msg))
  = ([], ["Error reading " ++ txt_path ++ ": " ++ msg]).
Proof. destruct lines; reflexivity. Qed.

Lemma count_words_unreadable (txt_path msg : str) :
  VerifyStats.count_words_from_txt txt_path (Unreadable msg)
  = (0, ["Error reading " ++ txt_path ++ ": " ++ msg]).
Proof. reflexivity. Qed.

(** The word counter returns what it had counted when the read failed. *)
Lemma count_words_broken (txt_path msg header : str) (lines : list str) :
  VerifyStats.count_words_from_txt txt_path
    (Readable (header :: lines) (Some msg))
  = (fold_left VerifyStats.count_line lines 0,
     ["Error reading " ++ txt_path ++ ": " ++ msg]).
Proof. reflexivity. Qed.

(** C4: on a transcript whose read fails after the header and one line
    [hello world], the text extractor returns the empty string, and the
    word counter returns 2, the count reached before the failure. *)
Theorem C4_word_counter_keeps_partial_count :
  let f := Readable [ "Line" ++ [TAB] ++ "Spkr" ++ [TAB] ++ "StTime"
                        ++ [TAB] ++ "Content" ++ [NL];
                      transcript_line "hello world" ]
             (Some ("invalid start byte" : str)) in
  PushToHuggingface.extract_text_from_txt "t.txt" f
  = ([], ["Error reading t.txt: invalid start byte" : str])
  /\ VerifyStats.count_words_from_txt "t.txt" f
     = (2, ["Error reading t.txt: invalid start byte" : str]).
Proof. split; vm_compute; reflexivity. Qed.

(** C10: on a transcript with no line at all the header skip raises
    [StopIteration] inside the [try] block; both functions catch it, print
    the error line and return the empty string and zero. *)
Theorem C10_empty_file_handled_as_error (txt_path : str) :
  PushToHuggingface.extract_text_try (Readable [] None) []
  = ([], Raise StopIteration)
  /\ VerifyStats.count_words_try (Readable [] None) 0 = (0, Raise StopIteration)
  /\ PushToHuggingface.extract_text_from_txt txt_path (Readable [] None)
     = ([], ["Error reading " ++ txt_path ++ ": "])
  /\ VerifyStats.count_words_from_txt txt_path (Readable [] None)
     = (0, ["Error reading " ++ txt_path ++ ": "]).
Proof. repeat split. Qed.

(** ** Word-count mode *)

Lemma markup_sub_no_slash (content : str) :
  Forall (fun a => Re.chr "/" a = false)
    (Re.sub VerifyStats.markup_re " " content).
Proof.
  unfold VerifyStats.markup_re.
  change (" " : str) with [" "%char]. rewrite sub_class_map.
  apply List.Forall_forall. intros a Ha. apply List.in_map_iff in Ha.
  destruct Ha as (b & <- & _).
  unfold Re.any_of, Re.chr. cbn [existsb list_ascii_of_string].
  destruct (Ascii.eqb_spec b "/") as [->|Hb].
  - reflexivity.
  - destruct (_ || _); [reflexivity|]. now apply Ascii.eqb_neq.
Qed.

(** C9: in word-count mode the redaction substitution never changes its
    input, because the markup substitution before it leaves no slash; the
    words counted are the tokens of the markup-substituted content that do
    not start with [RD-].  On [/RD-NAME-1/] the token [RD-NAME-1] reaches
    the filter and is dropped there. *)
Theorem C9_count_mode_redaction_sub_is_identity (content : str) :
  Re.sub VerifyStats.redaction_re []
    (Re.sub VerifyStats.markup_re " " content)
  = Re.sub VerifyStats.markup_re " " content
  /\ VerifyStats.content_words content
     = List.filter (fun w => negb (is_empty w) && negb (startswith w "RD-"))
         (split (Re.sub VerifyStats.markup_re " " content))
  /\ split (Re.sub VerifyStats.redaction_re []
              (Re.sub VerifyStats.markup_re " " "/RD-NAME-1/"))
     = ["RD-NAME-1" : str]
  /\ VerifyStats.content_words "/RD-NAME-1/" = [].
Proof.
  assert (H : Re.sub VerifyStats.redaction_re []
                (Re.sub VerifyStats.markup_re " " content)
              = Re.sub VerifyStats.markup_re " " content).
  { apply (sub_first_class_absent (Re.chr "/")), markup_sub_no_slash. }
  split; [exact H|]. split.
  - unfold VerifyStats.content_words. cbv zeta. rewrite H. reflexivity.
  - split; vm_compute; reflexivity.
Qed.

(** ** Stripping *)
Section StripLemmas.

Lemma lstrip_decompose (s : str) :
  exists w, s = w ++ lstrip s /\ Forall (fun a => isspace a = true) w.
Proof.
  induction s as [|a s (w & Hs & Hw)].
  - exists []. now split.
  - cbn [lstrip]. destruct (isspace a) eqn:Ha.
    + exists (a :: w). split; [now rewrite Hs at 1 | now constructor].
    + exists []. now split.
Qed.

Lemma rstrip_decompose (s : str) :
  exists w, s = rstrip s ++ w /\ Forall (fun a => isspace a = true) w.
Proof.
  unfold rstrip. destruct (lstrip_decompose (rev s)) as (w & Hs & Hw).
  exists (rev w). split.
  - rewrite <- rev_app_distr, <- Hs. now rewrite rev_involutive.
  - apply List.Forall_forall. intros a Ha. apply List.in_rev in Ha.
    revert a Ha. now apply List.Forall_forall.
Qed.

(** A line is its stripped form between two runs of whitespace. *)
Lemma strip_decompose (s : str) :
  exists w1 w2,
    s = w1 ++ strip s ++ w2
    /\ Forall (fun a => isspace a = true) w1
    /\ Forall (fun a => isspace a = true) w2.
Proof.
  destruct (lstrip_decompose s) as (w1 & Hs & Hw1).
  destruct (rstrip_decompose (lstrip s)) as (w2 & Hl & Hw2).
  exists w1, w2. unfold strip. now rewrite <- Hl.
Qed.

Lemma startswith_app (p s : str) : startswith (p ++ s) p = true.
Proof.
  induction p as [|a p IH]; [reflexivity|].
  cbn. now rewrite Ascii.eqb_refl.
Qed.

End StripLemmas.

(** ** Greedy repetition and search *)
Section MatchLemmas.

(** When the continuation accepts the longest run, the repetition takes
    it: no backtracking happens. *)
Lemma star_takes_run {R : Type} (c : ascii -> bool)
    (k : str -> str -> option R) (w t : str) (r : R) :
  Forall (fun a => c a = true) w ->
  hd_error t = None \/ (exists a, hd_error t = Some a /\ c a = false) ->
  k w t = Some r ->
  Re.star c k (w ++ t) = Some r.
Proof.
  intros Hw Ht. revert k. induction Hw as [|a w Ha _ IH]; intros k Hk.
  - cbn [app]. destruct t as [|b t].
    + exact Hk.
    + destruct Ht as [Ht|(b' & Ht & Hb)]; [discriminate|].
      injection Ht as <-. cbn [Re.star]. now rewrite Hb.
  - cbn [app Re.star]. rewrite Ha.
    now rewrite (IH (fun piece => k (a :: piece)) Hk).
Qed.

Lemma match_one (c : ascii -> bool) (p : Re.pattern) (a : ascii) (s : str)
    (ps : list str) (r : str) :
  c a = true ->
  Re.match_items p s = Some (ps, r) ->
  Re.match_items (Re.Item c Re.One :: p) (a :: s) = Some ([a] :: ps, r).
Proof.
  intros Ha Hp. cbn [Re.match_items Re.rep Re.cls]. now rewrite Ha, Hp.
Qed.

Lemma match_star_run (c : ascii -> bool) (p : Re.pattern) (w t : str)
    (ps : list str) (r : str) :
  Forall (fun a => c a = true) w ->
  hd_error t = None \/ (exists a, hd_error t = Some a /\ c a = false) ->
  Re.match_items p t = Some (ps, r) ->
  Re.match_items (Re.Item c Re.Star :: p) (w ++ t) = Some (w :: ps, r).
Proof.
  intros Hw Ht Hp. cbn [Re.match_items Re.rep Re.cls].
  apply star_takes_run; [exact Hw | exact Ht | now rewrite Hp].
Qed.

Lemma match_plus_run (c : ascii -> bool) (p : Re.pattern) (w t : str)
    (ps : list str) (r : str) :
  w <> [] ->
  Forall (fun a => c a = true) w ->
  hd_error t = None \/ (exists a, hd_error t = Some a /\ c a = false) ->
  Re.match_items p t = Some (ps, r) ->
  Re.match_items (Re.Item c Re.Plus :: p) (w ++ t) = Some (w :: ps, r).
Proof.
  intros Hne Hw Ht Hp. destruct w as [|a w]; [congruence|].
  apply List.Forall_cons_iff in Hw as [Ha Hw].
  cbn [Re.match_items Re.rep Re.cls app]. rewrite Ha.
  apply star_takes_run; [exact Hw | exact Ht | now rewrite Hp].
Qed.

(** The search passes over characters the first class rejects. *)
Lemma search_skip (c : ascii -> bool) (p : Re.pattern) (w s : str) :
  Forall (fun a => c a = false) w ->
  Re.search (Re.Item c Re.One :: p) (w ++ s)
  = Re.search (Re.Item c Re.One :: p) s.
Proof.
  induction 1 as [|a w Ha _ IH]; [reflexivity|].
  cbn [app Re.search Re.match_items Re.rep Re.cls]. rewrite Ha. exact IH.
Qed.

End MatchLemmas.

(** ** Splitting on whitespace and joining with one space *)
Section SplitJoin.

Lemma split_tokens (s : str) : Forall token (split s).
Proof.
  induction s as [|c s IH]; [constructor|].
  cbn [split]. destruct (isspace c) eqn:Hc; [exact IH|].
  assert (Hone : token [c]) by (split; [discriminate | now repeat constructor]).
  destruct s as [|c' s']; [now repeat constructor|].
  destruct (isspace c') eqn:Hc'; [now constructor|].
  destruct (split (c' :: s')) as [|w ws]; [now repeat constructor|].
  apply List.Forall_cons_iff in IH as [[_ Hw] Hws].
  constructor; [|exact Hws]. split; [discriminate | now constructor].
Qed.

Lemma split_token (w : str) : token w -> split w = [w].
Proof.
  intros [Hne Hw]. induction Hw as [|c w Hc Hw IH]; [congruence|].
  cbn [split]. rewrite Hc. destruct w as [|c' w']; [reflexivity|].
  pose proof Hw as Hw'. apply List.Forall_cons_iff in Hw' as [Hc' _].
  rewrite Hc'. now rewrite IH.
Qed.

Lemma split_token_space (w t : str) :
  token w -> split (w ++ " "%char :: t) = w :: split t.
Proof.
  intros [Hne Hw]. induction Hw as [|c w Hc Hw IH]; [congruence|].
  cbn [app]. cbn [split]. rewrite Hc. destruct w as [|c' w'].
  - reflexivity.
  - pose proof Hw as Hw'. apply List.Forall_cons_iff in Hw' as [Hc' _].
    cbn [app]. rewrite Hc'. cbn [app] in IH. now rewrite IH.
Qed.

Lemma split_join (ws : list str) :
  Forall token ws -> split (join " " ws) = ws.
Proof.
  induction 1 as [|w ws Hw Hws IH]; [reflexivity|].
  cbn [join]. destruct ws as [|w2 ws].
  - now apply split_token.
  - change ((" " : str) ++ join " " (w2 :: ws))
      with (" "%char :: join " " (w2 :: ws)).
    rewrite split_token_space by exact Hw. now rewrite IH.
Qed.

(** The tokens of the cleaned-up text are the tokens of the text. *)
Lemma split_normalize (s : str) : split (normalize s) = split s.
Proof. apply split_join, split_tokens. Qed.

Lemma normalize_idempotent (s : str) : normalize (normalize s) = normalize s.
Proof. unfold normalize at 1. now rewrite split_normalize. Qed.

Lemma normalize_empty (s : str) : normalize s = [] -> split s = [].
Proof. intros H. now rewrite <- split_normalize, H. Qed.

End SplitJoin.

(** ** The duration extractor *)
Section Duration.

Lemma space_not_x (a : ascii) : isspace a = true -> Re.chr "x" a = false.
Proof.
  intros H. unfold Re.chr. destruct (Ascii.eqb_spec a "x") as [->|]; [|reflexivity].
  discriminate H.
Qed.

Lemma numeric_not_space (a : ascii) : numeric a = true -> Re.space a = false.
Proof.
  unfold numeric, Re.digit, Re.chr, Re.space, isdecimal, isspace, in_range, code.
  intros H. destruct (Ascii.eqb_spec a ".") as [Heq|_].
  { rewrite Heq. reflexivity. }
  rewrite orb_false_r in H. apply andb_true_iff in H as [H1 H2].
  apply N.leb_le in H1, H2.
  repeat (apply orb_false_iff; split);
    try apply andb_false_iff; rewrite ?N.leb_gt, ?N.eqb_neq; lia.
Qed.

(** The pattern on a text that begins with [xmax =], whitespace and a
    run of digits and dots: the group is that run. *)
Lemma xmax_match (ws num rest : str) :
  Forall (fun a => isspace a = true) ws ->
  num <> [] ->
  Forall (fun a => numeric a = true) num ->
  hd_error rest = None \/ (exists a, hd_error rest = Some a /\ numeric a = false) ->
  exists pieces,
    Re.match_items VerifyStats.xmax_re ("xmax =" ++ ws ++ num ++ rest)
    = Some (pieces, rest)
    /\ VerifyStats.group1 pieces = num.
Proof.
  intros Hws Hne Hnum Hrest.
  assert (Hhd : exists a, hd_error (num ++ rest) = Some a
                          /\ Re.space a = false).
  { destruct num as [|d num]; [congruence|].
    apply List.Forall_cons_iff in Hnum as [Hd _].
    exists d. split; [reflexivity | now apply numeric_not_space]. }
  exists [["x"%char]; ["m"%char]; ["a"%char]; ["x"%char]; [" "%char];
          ["="%char]; ws; num].
  split; [|reflexivity].
  change VerifyStats.xmax_re with
    (Re.Item (Re.chr "x") Re.One :: Re.Item (Re.chr "m") Re.One
       :: Re.Item (Re.chr "a") Re.One :: Re.Item (Re.chr "x") Re.One
       :: Re.Item Re.space Re.Star :: Re.Item (Re.chr "=") Re.One
       :: Re.Item Re.space Re.Star :: [Re.Item numeric Re.Plus]).
  change (("xmax =" : str) ++ ws ++ num ++ rest) with
    ("x"%char :: "m"%char :: "a"%char :: "x"%char
       :: [" "%char] ++ "="%char :: ws ++ num ++ rest).
  do 4 (apply match_one; [reflexivity|]).
  apply match_star_run.
  { repeat constructor. }
  { right. exists "="%char. now split. }
  apply match_one; [reflexivity|].
  apply match_star_run; [exact Hws | right; exact Hhd |].
  now apply match_plus_run.
Qed.

Lemma space_not_numeric (a : ascii) : isspace a = true -> numeric a = false.
Proof.
  intros H. destruct (numeric a) eqn:Hn; [|reflexivity].
  apply numeric_not_space in Hn. unfold Re.space in Hn. congruence.
Qed.

(** Searching a line whose stripped form starts that way. *)
Lemma xmax_search (line ws num rest : str) :
  strip line = "xmax =" ++ ws ++ num ++ rest ->
  Forall (fun a => isspace a = true) ws ->
  num <> [] ->
  Forall (fun a => numeric a = true) num ->
  hd_error rest = None \/ (exists a, hd_error rest = Some a /\ numeric a = false) ->
  exists pieces,
    Re.search VerifyStats.xmax_re line = Some pieces
    /\ VerifyStats.group1 pieces = num.
Proof.
  intros Hstrip Hws Hne Hnum Hrest.
  destruct (strip_decompose line) as (w1 & w2 & Hl & Hw1 & Hw2).
  rewrite Hstrip in Hl.
  destruct (xmax_match ws num (rest ++ w2) Hws Hne Hnum) as (pieces & Hm & Hg).
  { destruct rest as [|a rest].
    - destruct w2 as [|b w2]; [now left|]. right. exists b. split; [reflexivity|].
      apply space_not_numeric. now inversion Hw2.
    - right. destruct Hrest as [Hrest|Hrest]; [discriminate|]. exact Hrest. }
  exists pieces. split; [|exact Hg].
  rewrite Hl.
  change VerifyStats.xmax_re with
    (Re.Item (Re.chr "x") Re.One :: tl VerifyStats.xmax_re).
  rewrite search_skip.
  - change (Re.Item (Re.chr "x") Re.One :: tl VerifyStats.xmax_re)
      with VerifyStats.xmax_re.
    replace ((("xmax =" : str) ++ ws ++ num ++ rest) ++ w2)
      with (("xmax =" : str) ++ ws ++ num ++ rest ++ w2)
      by now rewrite <- !app_assoc.
    destruct (("xmax =" : str) ++ ws ++ num ++ rest ++ w2);
      cbn [Re.search]; now rewrite Hm.
  - eapply List.Forall_impl; [|exact Hw1]. apply space_not_x.
Qed.

Lemma scan_xmax_skip (before lines : list str) :
  Forall no_xmax before ->
  VerifyStats.scan_xmax (before ++ lines) = VerifyStats.scan_xmax lines.
Proof.
  induction 1 as [|l before Hl _ IH]; [reflexivity|].
  cbn [app VerifyStats.scan_xmax]. unfold no_xmax in Hl. now rewrite Hl.
Qed.

Lemma scan_xmax_none (lines : list str) :
  Forall no_xmax lines -> VerifyStats.scan_xmax lines = None.
Proof.
  intros H. rewrite <- (app_nil_r lines). now rewrite scan_xmax_skip.
Qed.

End Duration.

(** C6: the duration extractor returns the value of the number that
    follows [xmax =] on the first line whose stripped form begins with
    [xmax =] (the number being the run of digits and dots after optional
    whitespace, read by [float]); it returns 0.0 and prints nothing when no
    line begins that way, and returns 0.0 after printing the error line
    when the file cannot be opened or the read fails before such a line.
    On a file holding the line [xmax = 125.430000 ] the result is 125.43.
    Floats are given by the rational their decimal literal denotes. *)
Theorem C6_duration_extractor :
  (forall (path : str) (before after : list str) (line ws num rest : str)
          (broken : option str) (d : Q),
      Forall no_xmax before ->
      strip line = "xmax =" ++ ws ++ num ++ rest ->
      Forall (fun a => isspace a = true) ws ->
      num <> [] ->
      Forall (fun a => numeric a = true) num ->
      hd_error rest = None
      \/ (exists a, hd_error rest = Some a /\ numeric a = false) ->
      float num = Return d ->
      VerifyStats.get_duration_from_textgrid path
        (Readable (before ++ line :: after) broken) = (d, []))
  /\ (forall (path : str) (lines : list str),
        Forall no_xmax lines ->
        VerifyStats.get_duration_from_textgrid path (Readable lines None)
        = (0%Q, []))
  /\ (forall (path msg : str) (lines : list str),
        Forall no_xmax lines ->
        VerifyStats.get_duration_from_textgrid path
          (Readable lines (Some msg)) = (0%Q, [error_line path msg]))
  /\ (forall (path msg : str),
        VerifyStats.get_duration_from_textgrid path (Unreadable msg)
        = (0%Q, [error_line path msg]))
  /\ VerifyStats.get_duration_from_textgrid "ATL_se0_ag1_f_01_1.TextGrid"
       (Readable [ "File type = ooTextFile" ++ [NL];
                   "xmin = 0 " ++ [NL];
                   "xmax = 125.430000 " ++ [NL];
                   "tiers? <exists> " ++ [NL] ] None)
     = (12543 # 100, []).
Proof.
  refine (conj _ (conj _ (conj _ (conj _ _)))).
  - intros path before after line ws num rest broken d
      Hbefore Hstrip Hws Hne Hnum Hrest Hfloat.
    destruct (xmax_search line ws num rest Hstrip Hws Hne Hnum Hrest)
      as (pieces & Hsearch & Hgroup).
    unfold VerifyStats.get_duration_from_textgrid, VerifyStats.get_duration_try.
    cbn [open pending]. rewrite scan_xmax_skip by exact Hbefore.
    cbn [VerifyStats.scan_xmax].
    rewrite Hstrip, startswith_app, Hsearch, Hgroup, Hfloat. reflexivity.
  - intros path lines H.
    unfold VerifyStats.get_duration_from_textgrid, VerifyStats.get_duration_try.
    cbn [open pending]. now rewrite scan_xmax_none.
  - intros path msg lines H.
    unfold VerifyStats.get_duration_from_textgrid, VerifyStats.get_duration_try.
    cbn [open pending]. now rewrite scan_xmax_none.
  - reflexivity.
  - vm_compute. reflexivity.
Qed.

Lemma C6_duration_extractor_witness :
  VerifyStats.get_duration_from_textgrid "a.TextGrid"
    (Readable [ "xmin = 0" ++ [NL]; "  xmax = 7.5 s" ++ [NL];
                "xmax = 9" ++ [NL] ] None)
  = (15 # 2, []).
Proof.
  apply (proj1 C6_duration_extractor "a.TextGrid"
           [ "xmin = 0" ++ [NL] ] [ "xmax = 9" ++ [NL] ]
           ("  xmax = 7.5 s" ++ [NL]) " " "7.5" " s" None (15 # 2)).
  - repeat constructor.
  - vm_compute. reflexivity.
  - repeat constructor.
  - discriminate.
  - repeat constructor.
  - right. exists " "%char. split; reflexivity.
  - vm_compute. reflexivity.
Defined.


(** ** The metadata joiner *)
Section Metadata.

Lemma example_table_loaded (path : str) :
  PushToHuggingface.load_metadata [(path, example_table)]
  = {[ ("ATL_se0_ag1_f_01" : str) := example_row ]}.
Proof.
  vm_cast_no_check
    (eq_refl (PushToHuggingface.load_metadata [(path, example_table)])).
Qed.

Lemma example_table_with_blank_id_loaded (path : str) :
  PushToHuggingface.load_metadata [(path, example_table_with_blank_id)]
  = {[ ("ATL_se0_ag1_f_01" : str) := example_row ]}.
Proof.
  vm_cast_no_check
    (eq_refl (PushToHuggingface.load_metadata
                [(path, example_table_with_blank_id)])).
Qed.

Lemma example_table_with_short_row_loaded (path : str) :
  PushToHuggingface.load_metadata [(path, example_table_with_short_row)] = ∅.
Proof.
  vm_cast_no_check
    (eq_refl (PushToHuggingface.load_metadata
                [(path, example_table_with_short_row)])).
Qed.

Lemma add_row_keyed (metadata_dict : gmap str (gmap (option str) Csv.value))
    (row : gmap (option str) Csv.value) :
  (forall id r, metadata_dict !! id = Some r ->
                PushToHuggingface.row_file_id r = Some id) ->
  forall id r, PushToHuggingface.add_row metadata_dict row !! id = Some r ->
               PushToHuggingface.row_file_id r = Some id.
Proof.
  intros Hinv id r. unfold PushToHuggingface.add_row.
  destruct (PushToHuggingface.row_file_id row) as [k|] eqn:Hk; [|apply Hinv].
  destruct (decide (k = id)) as [->|Hne].
  - rewrite lookup_insert_eq. now intros [= <-].
  - rewrite lookup_insert_ne by exact Hne. apply Hinv.
Qed.

Lemma add_rows_keyed (rows : list (gmap (option str) Csv.value)) :
  forall metadata_dict : gmap str (gmap (option str) Csv.value),
    (forall id r, metadata_dict !! id = Some r ->
                  PushToHuggingface.row_file_id r = Some id) ->
    forall id r,
      fold_left PushToHuggingface.add_row rows metadata_dict !! id = Some r ->
      PushToHuggingface.row_file_id r = Some id.
Proof.
  induction rows as [|row rows IH]; intros m Hinv; [exact Hinv|].
  cbn [fold_left]. apply IH. now apply add_row_keyed.
Qed.

(** Every entry of the mapping is a row stored under its own non-empty
    [CORAAL.File] value. *)
Lemma load_metadata_keyed (metadata_files : list (str * file)) (id : str)
    (row : gmap (option str) Csv.value) :
  PushToHuggingface.load_metadata metadata_files !! id = Some row ->
  row !! Some ("CORAAL.File" : str) = Some (Csv.VStr id) /\ id <> [].
Proof.
  intros H.
  assert (Hid : PushToHuggingface.row_file_id row = Some id).
  { revert H. unfold PushToHuggingface.load_metadata.
    destruct metadata_files as [|[path f] _]; [now rewrite lookup_empty|].
    destruct (open f) as [h|e]; [|now rewrite lookup_empty].
    destruct (Csv.DictReader TAB h) as [rows [[]|e]];
      [|now rewrite lookup_empty].
    apply add_rows_keyed. intros id' r. now rewrite lookup_empty. }
  unfold PushToHuggingface.row_file_id in Hid.
  destruct (row !! Some ("CORAAL.File" : str)) as [[v| |l]|]; try discriminate.
  destruct v as [|a v]; [discriminate|].
  injection Hid as <-. now split.
Qed.

End Metadata.

(** C3 (as stated): on the example table the lookup of
    [ATL_se0_ag1_f_01] is not [{'Age': '19', 'Gender': 'f'}]: the stored
    row keeps its [CORAAL.File] column. *)
Lemma C3_lookup_is_not_the_row_without_id :
  ~ (PushToHuggingface.load_metadata
       [("ATL_metadata_2020.05.txt" : str, example_table)]
       !! ("ATL_se0_ag1_f_01" : str)
     = Some example_row_without_id).
Proof.
  rewrite example_table_loaded, lookup_singleton_eq. intros H.
  assert (H' := f_equal
                  (fun o : option (gmap (option str) Csv.value) =>
                     match o with
                     | Some row => row !! Some ("CORAAL.File" : str)
                     | None => None
                     end) H).
  vm_compute in H'. discriminate H'.
Qed.

(** C3 (amended): on the example table, looking up [ATL_se0_ag1_f_01]
    returns the whole row
    [{'CORAAL.File': 'ATL_se0_ag1_f_01', 'Age': '19', 'Gender': 'f'}] and
    any other identifier has no entry; a row whose [CORAAL.File] value is
    missing, [None] or empty leaves the mapping as it was, so every entry
    of a loaded mapping sits under its own non-empty [CORAAL.File]. *)
Theorem C3_metadata_lookup (path : str) :
  PushToHuggingface.load_metadata [(path, example_table)]
    !! ("ATL_se0_ag1_f_01" : str) = Some example_row
  /\ (forall id : str,
        id <> "ATL_se0_ag1_f_01" ->
        PushToHuggingface.load_metadata [(path, example_table)] !! id = None)
  /\ (forall (metadata_dict : gmap str (gmap (option str) Csv.value))
             (row : gmap (option str) Csv.value),
        row !! Some ("CORAAL.File" : str) = None
        \/ row !! Some ("CORAAL.File" : str) = Some Csv.VNone
        \/ row !! Some ("CORAAL.File" : str) = Some (Csv.VStr []) ->
        PushToHuggingface.add_row metadata_dict row = metadata_dict)
  /\ (forall (metadata_files : list (str * file)) (id : str)
             (row : gmap (option str) Csv.value),
        PushToHuggingface.load_metadata metadata_files !! id = Some row ->
        row !! Some ("CORAAL.File" : str) = Some (Csv.VStr id) /\ id <> [])
  /\ PushToHuggingface.load_metadata [(path, example_table_with_blank_id)]
     = PushToHuggingface.load_metadata [(path, example_table)]
  /\ PushToHuggingface.load_metadata [(path, example_table_with_short_row)]
     = ∅.
Proof.
  refine (conj _ (conj _ (conj _ (conj _ (conj _ _))))).
  - now rewrite example_table_loaded, lookup_singleton_eq.
  - intros id Hid. rewrite example_table_loaded.
    apply lookup_singleton_ne. congruence.
  - intros metadata_dict row H.
    unfold PushToHuggingface.add_row, PushToHuggingface.row_file_id.
    destruct H as [-> | [-> | ->]]; reflexivity.
  - apply load_metadata_keyed.
  - now rewrite example_table_loaded, example_table_with_blank_id_loaded.
  - apply example_table_with_short_row_loaded.
Qed.

Lemma C3_metadata_lookup_witness :
  PushToHuggingface.load_metadata
    [("ATL_metadata_2020.05.txt" : str, example_table)]
    !! ("ATL_se0_ag1_f_01_1" : str) = None
  /\ PushToHuggingface.add_row ∅ example_row_without_id = ∅.
Proof.
  split.
  - apply (proj1 (proj2 (C3_metadata_lookup "ATL_metadata_2020.05.txt"))).
    discriminate.
  - apply (proj1 (proj2 (proj2 (C3_metadata_lookup "ATL_metadata_2020.05.txt")))).
    left. vm_compute. reflexivity.
Defined.

(** ** Samples of the upload pipeline *)
Section Samples.

Lemma collect_sample_file_id
    (metadata_dict : gmap str (gmap (option str) Csv.value))
    (wav_file txt_path : str) (txt : option file)
    (sample : gmap (option str) Csv.value) :
  PushToHuggingface.collect_sample metadata_dict wav_file txt_path txt
  = Some sample ->
  let row := default ∅ (metadata_dict !! Pathlib.stem wav_file) in
  (forall k v, row !! k = Some v -> sample !! k = Some v)
  /\ (row !! Some ("file_id" : str) = None ->
      sample !! Some ("file_id" : str)
      = Some (Csv.VStr (Pathlib.stem wav_file))).
Proof.
  unfold PushToHuggingface.collect_sample.
  destruct txt as [f|]; [|discriminate].
  intros [= <-]. cbv zeta. split.
  - intros k v Hk. now apply lookup_union_Some_l.
  - intros Hnone. rewrite lookup_union_r by exact Hnone.
    apply lookup_insert_eq.
Qed.

Lemma in_slice_to {A : Type} (n : Z) (l : list A) (x : A) :
  In x (PushToHuggingface.slice_to n l) -> In x l.
Proof.
  unfold PushToHuggingface.slice_to. intros H.
  destruct (0 <=? n)%Z.
  - rewrite <- (firstn_skipn (Z.to_nat n) l). apply in_or_app. now left.
  - rewrite <- (firstn_skipn (length l - Z.to_nat (- n)) l).
    apply in_or_app. now left.
Qed.

(** Every sample of a component comes from one of its audio files. *)
Lemma collect_component_in (dir : PushToHuggingface.directory)
    (max_per_component : option Z) (sample : gmap (option str) Csv.value) :
  In sample (PushToHuggingface.collect_component dir max_per_component) ->
  exists wav_file txt_path txt,
    In wav_file (PushToHuggingface.wav_files dir)
    /\ PushToHuggingface.collect_sample
         (PushToHuggingface.load_metadata
            (PushToHuggingface.metadata_files dir))
         wav_file txt_path txt = Some sample.
Proof.
  unfold PushToHuggingface.collect_component.
  set (md := PushToHuggingface.load_metadata _).
  set (wavs := match max_per_component with
               | Some n => _ | None => _ end).
  assert (Hwavs : forall w, In w wavs -> In w (PushToHuggingface.wav_files dir)).
  { subst wavs. destruct max_per_component; [apply in_slice_to | tauto]. }
  clearbody wavs.
  assert (Hgen : forall acc,
             In sample
               (fold_left
                  (fun samples wav_file =>
                     match PushToHuggingface.collect_sample md wav_file
                             (Pathlib.with_suffix wav_file ".txt")
                             (PushToHuggingface.txt_file dir
                                (Pathlib.with_suffix wav_file ".txt")) with
                     | Some sample => samples ++ [sample]
                     | None => samples
                     end) wavs acc) ->
             In sample acc
             \/ exists w p t, In w wavs
                              /\ PushToHuggingface.collect_sample md w p t
                                 = Some sample).
  { clear Hwavs. induction wavs as [|w wavs IH]; intros acc H; [now left|].
    cbn [fold_left] in H. apply IH in H as [H|(w' & p' & t' & Hin & Hs)].
    - destruct (PushToHuggingface.collect_sample md w _ _) as [s0|] eqn:Hs0;
        [|now left].
      apply in_app_or in H as [H|[<-|[]]]; [now left|].
      right. eexists w, _, _. split; [now left | exact Hs0].
    - right. exists w', p', t'. split; [now right | exact Hs]. }
  intros H. apply Hgen in H as [[]|(w & p0 & t & Hin & Hs)].
  exists w, p0, t. split; [now apply Hwavs | exact Hs].
Qed.

(** Every list of the result is the sample list of an existing
    component directory. *)
Lemma collect_dataset_samples_lookup
    (fs : str -> option PushToHuggingface.directory)
    (max_per_component : option Z) (component : str)
    (samples : list (gmap (option str) Csv.value)) :
  PushToHuggingface.collect_dataset_samples fs max_per_component
    !! component = Some samples ->
  exists dir,
    fs component = Some dir
    /\ samples = PushToHuggingface.collect_component dir max_per_component.
Proof.
  unfold PushToHuggingface.collect_dataset_samples.
  generalize PushToHuggingface.components. intros comps.
  assert (Hgen : forall all_samples : gmap str (list (gmap (option str) Csv.value)),
             (forall c l, all_samples !! c = Some l ->
                exists dir, fs c = Some dir
                  /\ l = PushToHuggingface.collect_component dir
                           max_per_component) ->
             forall c l,
               fold_left
                 (fun all_samples component =>
                    match fs component with
                    | None => all_samples
                    | Some dir =>
                        match PushToHuggingface.collect_component dir
                                max_per_component with
                        | [] => all_samples
                        | samples => <[component := samples]> all_samples
                        end
                    end) comps all_samples !! c = Some l ->
               exists dir, fs c = Some dir
                 /\ l = PushToHuggingface.collect_component dir
                          max_per_component).
  { induction comps as [|c0 comps IH]; intros m Hm; [exact Hm|].
    cbn [fold_left]. apply IH.
    destruct (fs c0) as [dir|] eqn:Hfs; [|exact Hm].
    destruct (PushToHuggingface.collect_component dir max_per_component)
      as [|s0 rest] eqn:Hc; [exact Hm|].
    intros c l. destruct (decide (c0 = c)) as [->|Hne].
    - rewrite lookup_insert_eq. intros [= <-]. now exists dir.
    - rewrite lookup_insert_ne by exact Hne. apply Hm. }
  apply Hgen. intros c l. now rewrite lookup_empty.
Qed.

Lemma example_fs_collected :
  PushToHuggingface.collect_dataset_samples example_fs None
  = {[ ("ATL" : str) := [example_sample] ]}.
Proof.
  vm_cast_no_check
    (eq_refl (PushToHuggingface.collect_dataset_samples example_fs None)).
Qed.

End Samples.

(** ** File names *)
Section FileNames.

Lemma split_on_nonempty (sep : ascii) (s : str) : split_on sep s <> [].
Proof.
  destruct s as [|c s]; [discriminate|]. cbn [split_on].
  destruct (Ascii.eqb c sep); [discriminate|].
  destruct (split_on sep s); discriminate.
Qed.

Lemma split_on_absent (sep : ascii) (s : str) :
  ~ In sep s -> split_on sep s = [s].
Proof.
  induction s as [|c s IH]; [reflexivity|]. intros H. cbn [split_on].
  destruct (Ascii.eqb_spec c sep) as [->|_]; [exfalso; apply H; now left|].
  rewrite IH; [reflexivity|]. intros Hin. apply H. now right.
Qed.

Lemma split_on_app (sep : ascii) (d n : str) :
  split_on sep (d ++ sep :: n) = split_on sep d ++ split_on sep n.
Proof.
  induction d as [|c d IH].
  - cbn [app split_on]. now rewrite Ascii.eqb_refl.
  - cbn [app split_on]. destruct (Ascii.eqb c sep); [now rewrite IH|].
    rewrite IH. pose proof (split_on_nonempty sep d) as Hne.
    now destruct (split_on sep d).
Qed.

Lemma rfind_absent (c : ascii) (s : str) : ~ In c s -> rfind c s = None.
Proof.
  induction s as [|d s IH]; [reflexivity|]. intros H. cbn [rfind].
  rewrite IH by (intros Hin; apply H; now right).
  destruct (Ascii.eqb_spec d c) as [->|_]; [exfalso; apply H; now left|].
  reflexivity.
Qed.

Lemma rfind_last (c : ascii) (s e : str) :
  ~ In c e -> rfind c (s ++ c :: e) = Some (length s).
Proof.
  intros He. induction s as [|d s IH].
  - cbn [app rfind length]. rewrite rfind_absent by exact He.
    now rewrite Ascii.eqb_refl.
  - cbn [app rfind length]. now rewrite IH.
Qed.

(** The name of a path is its last component. *)
Lemma name_last_component (dir n : str) :
  n <> [] -> n <> ["."%char] -> ~ In "/"%char n ->
  Pathlib.name (dir ++ "/"%char :: n) = n /\ Pathlib.name n = n.
Proof.
  intros Hne Hdot Hslash. unfold Pathlib.name, Pathlib.components.
  assert (Hf : List.filter
                 (fun c => negb (is_empty c)
                           && negb (bool_decide (c = ["."%char]))) [n] = [n]).
  { cbn [List.filter]. destruct n as [|a n]; [congruence|].
    cbn [is_empty negb andb]. now rewrite bool_decide_eq_false_2. }
  split.
  - rewrite split_on_app, List.filter_app, (split_on_absent _ n) by exact Hslash.
    rewrite Hf. apply List.last_last.
  - rewrite (split_on_absent _ n) by exact Hslash. now rewrite Hf.
Qed.

(** On a name of the convention form the stem keeps the session and
    [parse_filename] drops it. *)
Lemma convention_stem (dir stem_ ext : str) :
  stem_ <> [] -> ext <> [] ->
  ~ In "/"%char stem_ -> ~ In "/"%char ext -> ~ In "."%char ext ->
  Pathlib.stem (dir ++ "/"%char :: stem_ ++ "."%char :: ext) = stem_
  /\ Pathlib.stem (stem_ ++ "."%char :: ext) = stem_.
Proof.
  intros Hs He Hs1 He1 He2.
  assert (Hname : Pathlib.name (dir ++ "/"%char :: stem_ ++ "."%char :: ext)
                  = stem_ ++ "."%char :: ext
                  /\ Pathlib.name (stem_ ++ "."%char :: ext)
                     = stem_ ++ "."%char :: ext).
  { apply name_last_component.
    - now destruct stem_.
    - destruct stem_ as [|a [|b stem_]]; [congruence| |discriminate].
      destruct ext; [congruence | discriminate].
    - intros H. apply in_app_or in H as [H|[H|H]];
        [now apply Hs1 | discriminate | now apply He1]. }
  assert (Hcut : match rfind "." (stem_ ++ "."%char :: ext) with
                 | Some i =>
                     if (0 <? i)%nat
                        && (i <? length (stem_ ++ "."%char :: ext) - 1)%nat
                     then take i (stem_ ++ "."%char :: ext)
                     else stem_ ++ "."%char :: ext
                 | None => stem_ ++ "."%char :: ext
                 end = stem_).
  { rewrite rfind_last by exact He2.
    replace (0 <? length stem_)%nat with true
      by (symmetry; apply Nat.ltb_lt; destruct stem_; [congruence | cbn; lia]).
    replace (length stem_ <? length (stem_ ++ "."%char :: ext) - 1)%nat
      with true.
    - cbn [andb]. apply take_app_length.
    - symmetry. apply Nat.ltb_lt. rewrite length_app. cbn [length].
      destruct ext; [congruence | cbn [length]; lia]. }
  unfold Pathlib.stem. destruct Hname as [-> ->]. now split.
Qed.

Lemma parse_filename_convention (base session ext : str) :
  ext <> [] ->
  ~ In "/"%char base -> ~ In "/"%char session -> ~ In "/"%char ext ->
  ~ In "_"%char session -> ~ In "."%char ext ->
  PushToHuggingface.parse_filename
    (base ++ "_"%char :: session ++ "."%char :: ext) = base.
Proof.
  intros He Hb Hs He1 Hs2 He2. unfold PushToHuggingface.parse_filename.
  replace (base ++ "_"%char :: session ++ "."%char :: ext)
    with ((base ++ "_"%char :: session) ++ "."%char :: ext)
    by now rewrite <- app_assoc.
  rewrite (proj2 (convention_stem [] (base ++ "_"%char :: session) ext
                    ltac:(now destruct base) He
                    ltac:(intros H; apply in_app_or in H as [H|[H|H]];
                          [now apply Hb | discriminate | now apply Hs])
                    He1 He2)).
  unfold rsplit1. rewrite rfind_last by exact Hs2.
  apply take_app_length.
Qed.

End FileNames.

(** C1 (as stated): for the recording [ATL_se0_ag1_f_01_1.wav] the
    pipeline does not store the identifier without the session suffix,
    [ATL_se0_ag1_f_01], in the sample's [file_id] field. *)
Lemma C1_file_id_is_not_the_suffix_free_stem :
  ~ (forall samples sample,
        PushToHuggingface.collect_dataset_samples example_fs None
          !! ("ATL" : str) = Some samples ->
        In sample samples ->
        sample !! Some ("file_id" : str)
        = Some (Csv.VStr
                  (PushToHuggingface.parse_filename "ATL_se0_ag1_f_01_1.wav"))).
Proof.
  intros H. specialize (H [example_sample] example_sample).
  rewrite example_fs_collected, lookup_singleton_eq in H.
  specialize (H eq_refl (or_introl eq_refl)).
  vm_compute in H. discriminate H.
Qed.

(** ** Text mode against word-count mode *)
Section Modes.

Lemma markup_free_classes (a : ascii) :
  Re.any_of "[]</(" a = false ->
  Re.any_of "[]" a = false /\ Re.any_of "<[]/" a = false
  /\ Re.chr "<" a = false /\ Re.chr "/" a = false /\ Re.chr "(" a = false.
Proof.
  unfold Re.any_of, Re.chr. cbn [existsb list_ascii_of_string].
  intros H. repeat (apply orb_false_iff in H as [? H]).
  repeat split; repeat (apply orb_false_iff; split); assumption.
Qed.

Lemma markup_free_forall (content : str) (c : ascii -> bool) :
  markup_free content ->
  (forall a, Re.any_of "[]</(" a = false -> c a = false) ->
  Forall (fun a => c a = false) content.
Proof. intros H Hc. eapply List.Forall_impl; [|exact H]. exact Hc. Qed.

Lemma clean_content_markup_free (content : str) :
  markup_free content ->
  PushToHuggingface.clean_content content = normalize content.
Proof.
  intros H. unfold PushToHuggingface.clean_content, normalize. cbv zeta.
  assert (H1 : Re.sub PushToHuggingface.bracket_re [] content = content).
  { apply (sub_first_class_absent (Re.any_of "[]")).
    apply markup_free_forall; [exact H|].
    intros a Ha. now apply markup_free_classes in Ha. }
  assert (H2 : Re.sub PushToHuggingface.angle_re [] content = content).
  { apply (sub_first_class_absent (Re.chr "<")).
    apply markup_free_forall; [exact H|].
    intros a Ha. now apply markup_free_classes in Ha. }
  assert (H3 : Re.sub PushToHuggingface.redaction_re [] content = content).
  { apply (sub_first_class_absent (Re.chr "/")).
    apply markup_free_forall; [exact H|].
    intros a Ha. now apply markup_free_classes in Ha. }
  assert (H4 : Re.sub PushToHuggingface.descriptor_re [] content = content).
  { apply (sub_first_class_absent (Re.chr "(")).
    apply markup_free_forall; [exact H|].
    intros a Ha. now apply markup_free_classes in Ha. }
  now rewrite H1, H2, H3, H4.
Qed.

Lemma filter_all {A : Type} (f : A -> bool) (l : list A) :
  Forall (fun x => f x = true) l -> List.filter f l = l.
Proof.
  induction 1 as [|x l Hx _ IH]; [reflexivity|].
  cbn [List.filter]. now rewrite Hx, IH.
Qed.

Lemma content_words_markup_free (content : str) :
  markup_free content ->
  Forall (fun w => startswith w "RD-" = false) (split content) ->
  VerifyStats.content_words content = split content.
Proof.
  intros H Hrd. unfold VerifyStats.content_words. cbv zeta.
  assert (H1 : Re.sub VerifyStats.markup_re " " content = content).
  { apply (sub_first_class_absent (Re.any_of "<[]/")).
    apply markup_free_forall; [exact H|].
    intros a Ha. now apply markup_free_classes in Ha. }
  assert (H2 : Re.sub VerifyStats.redaction_re [] content = content).
  { apply (sub_first_class_absent (Re.chr "/")).
    apply markup_free_forall; [exact H|].
    intros a Ha. now apply markup_free_classes in Ha. }
  rewrite H1, H2.
  apply filter_all. pose proof (split_tokens content) as Htok.
  apply List.Forall_forall. intros w Hw.
  rewrite (proj1 (List.Forall_forall _ _) Hrd w Hw).
  destruct (proj1 (List.Forall_forall _ _) Htok w Hw) as [Hne _].
  now destruct w.
Qed.

End Modes.

(** C2 (as stated): on a line with four fields whose content is
    [<laugh>], word-count mode counts one word, [laugh>], while text mode
    produces no text at all. *)
Lemma C2_modes_disagree_on_angle_tag :
  let line := transcript_line "<laugh>" in
  (4 <= length (split_on TAB (strip line)))%nat
  /\ VerifyStats.count_line 0 line = 1
  /\ PushToHuggingface.text_line [] line = []
  /\ VerifyStats.count_line 0 line
     <> length (split (join " " (PushToHuggingface.text_line [] line))).
Proof.
  cbv zeta. refine (conj _ (conj _ (conj _ _))).
  - vm_compute. lia.
  - vm_compute. reflexivity.
  - vm_compute. reflexivity.
  - vm_compute. discriminate.
Qed.

(** C2 (amended): for every transcript line whose content holds none of
    the characters [[], []], [<], [/], [(] and no whitespace-separated
    token beginning with [RD-], the number that word-count mode adds for
    the line equals the number of whitespace-separated tokens of the text
    that text mode produces for it. *)
Theorem C2_modes_agree_without_markup (line : str) :
  markup_free (content_of line) ->
  Forall (fun w => startswith w "RD-" = false) (split (content_of line)) ->
  VerifyStats.count_line 0 line
  = length (split (join " " (PushToHuggingface.text_line [] line))).
Proof.
  intros Hfree Hrd.
  unfold VerifyStats.count_line, PushToHuggingface.text_line.
  fold (content_of line).
  destruct (4 <=? length (split_on TAB (strip line)))%nat; [|reflexivity].
  destruct (startswith (content_of line) "(pause"); [reflexivity|].
  destruct (is_empty (content_of line)); [reflexivity|].
  rewrite clean_content_markup_free by exact Hfree.
  rewrite content_words_markup_free by assumption.
  destruct (normalize (content_of line)) as [|a t] eqn:Hn.
  - apply normalize_empty in Hn. now rewrite Hn.
  - cbn [is_empty app join]. now rewrite <- Hn, split_normalize.
Qed.

Lemma C2_modes_agree_without_markup_witness :
  VerifyStats.count_line 0 (transcript_line " so  I said hello")
  = length (split (join " "
                     (PushToHuggingface.text_line []
                        (transcript_line " so  I said hello")))).
Proof.
  apply (C2_modes_agree_without_markup (transcript_line " so  I said hello")).
  - vm_compute. repeat constructor.
  - vm_compute. repeat constructor.
Defined.

(** ** What a match of the text-mode patterns looks like *)
Section MatchShape.

Lemma star_inv {R : Type} (c : ascii -> bool) (s : str) :
  forall (k : str -> str -> option R) (r : R),
    Re.star c k s = Some r ->
    exists w t,
      s = w ++ t /\ Forall (fun a => c a = true) w /\ k w t = Some r.
Proof.
  induction s as [|a s IH]; intros k r H.
  - exists [], []. now repeat split.
  - cbn [Re.star] in H. destruct (c a) eqn:Ha.
    + destruct (Re.star c (fun piece => k (a :: piece)) s) as [r'|] eqn:Hs.
      * injection H as ->. apply IH in Hs as (w & t & -> & Hw & Hk).
        exists (a :: w), t.
        split; [reflexivity | split; [now constructor | exact Hk]].
      * exists [], (a :: s). now repeat split.
    + exists [], (a :: s). now repeat split.
Qed.

Lemma match_one_inv (c : ascii -> bool) (p : Re.pattern) (t : str)
    (ps : list str) (r : str) :
  Re.match_items (Re.Item c Re.One :: p) t = Some (ps, r) ->
  exists a t' ps',
    t = a :: t' /\ c a = true /\ Re.match_items p t' = Some (ps', r).
Proof.
  cbn [Re.match_items Re.rep Re.cls]. destruct t as [|a t']; [discriminate|].
  destruct (c a) eqn:Ha; [|discriminate].
  destruct (Re.match_items p t') as [[ps' r']|] eqn:Hp; [|discriminate].
  intros [= <- <-]. now exists a, t', ps'.
Qed.

Lemma match_plus_inv (c : ascii -> bool) (p : Re.pattern) (t : str)
    (ps : list str) (r : str) :
  Re.match_items (Re.Item c Re.Plus :: p) t = Some (ps, r) ->
  exists w t' ps',
    t = w ++ t' /\ w <> [] /\ Forall (fun a => c a = true) w
    /\ Re.match_items p t' = Some (ps', r).
Proof.
  cbn [Re.match_items Re.rep Re.cls]. destruct t as [|a t0]; [discriminate|].
  destruct (c a) eqn:Ha; [|discriminate].
  intros H. apply star_inv in H as (w & t' & -> & Hw & Hk).
  destruct (Re.match_items p t') as [[ps' r']|] eqn:Hp; [|discriminate].
  injection Hk as <- <-.
  exists (a :: w), t', ps'.
  split; [reflexivity | split; [discriminate | split; [now constructor|]]].
  exact Hp.
Qed.

Lemma chr_true (c a : ascii) : Re.chr c a = true -> a = c.
Proof. unfold Re.chr. now intros H%Ascii.eqb_eq. Qed.

Lemma none_of_one (c : ascii) (w : str) :
  Forall (fun a => Re.none_of [c] a = true) w -> ~ In c w.
Proof.
  intros Hw Hin. apply (proj1 (List.Forall_forall _ _) Hw) in Hin.
  unfold Re.none_of, Re.any_of in Hin. cbn [existsb] in Hin.
  now rewrite Ascii.eqb_refl in Hin.
Qed.

Lemma angle_match (t : str) (ps : list str) (r : str) :
  Re.match_items PushToHuggingface.angle_re t = Some (ps, r) ->
  exists mid post,
    t = "<" ++ mid ++ ">" ++ post /\ mid <> [] /\ ~ In ">"%char mid.
Proof.
  intros H.
  apply match_one_inv in H as (a & t1 & ps1 & -> & Ha%chr_true & H).
  apply match_plus_inv in H as (w & t2 & ps2 & -> & Hne & Hw & H).
  apply match_one_inv in H as (b & t3 & ps3 & -> & Hb%chr_true & _).
  subst a b. exists w, t3.
  split; [reflexivity | split; [exact Hne | now apply none_of_one]].
Qed.

Lemma redaction_match (t : str) (ps : list str) (r : str) :
  Re.match_items PushToHuggingface.redaction_re t = Some (ps, r) ->
  exists mid post,
    t = "/RD-" ++ mid ++ "/" ++ post /\ mid <> [] /\ ~ In "/"%char mid.
Proof.
  intros H.
  apply match_one_inv in H as (a1 & t1 & ps1 & -> & Ha1%chr_true & H).
  apply match_one_inv in H as (a2 & t2 & ps2 & -> & Ha2%chr_true & H).
  apply match_one_inv in H as (a3 & t3 & ps3 & -> & Ha3%chr_true & H).
  apply match_one_inv in H as (a4 & t4 & ps4 & -> & Ha4%chr_true & H).
  apply match_plus_inv in H as (w & t5 & ps5 & -> & Hne & Hw & H).
  apply match_one_inv in H as (b & t6 & ps6 & -> & Hb%chr_true & _).
  subst. exists w, t6.
  split; [reflexivity | split; [exact Hne | now apply none_of_one]].
Qed.

Lemma descriptor_match (t : str) (ps : list str) (r : str) :
  Re.match_items PushToHuggingface.descriptor_re t = Some (ps, r) ->
  exists mid post,
    t = "(" ++ mid ++ ")" ++ post
    /\ mid <> [] /\ Forall (fun a => Re.letter a = true) mid.
Proof.
  intros H.
  apply match_one_inv in H as (a & t1 & ps1 & -> & Ha%chr_true & H).
  apply match_plus_inv in H as (w & t2 & ps2 & -> & Hne & Hw & H).
  apply match_one_inv in H as (b & t3 & ps3 & -> & Hb%chr_true & _).
  subst a b. exists w, t3.
  split; [reflexivity | split; [exact Hne | exact Hw]].
Qed.

(** A pattern that matches at no position leaves the text as it is. *)
Lemma sub_no_match (p : Re.pattern) (repl s : str) :
  (forall pre t, s = pre ++ t -> Re.match_items p t = None) ->
  Re.sub p repl s = s.
Proof.
  unfold Re.sub. induction s as [|a s IH]; intros H.
  - cbn [Re.sub_from]. unfold Re.match_length. now rewrite (H [] []).
  - cbn [Re.sub_from]. unfold Re.match_length at 1.
    rewrite (H [] (a :: s)) by reflexivity. f_equal. apply IH.
    intros pre t ->. now apply (H (a :: pre) t).
Qed.

End MatchShape.

(** ** The whitespace clean-up keeps markup apart *)
Section Normalize.

Lemma normalize_space (c : ascii) (s : str) :
  isspace c = true -> normalize (c :: s) = normalize s.
Proof. intros Hc. unfold normalize. cbn [split]. now rewrite Hc. Qed.

Lemma normalize_char (c : ascii) (s : str) :
  isspace c = false -> normalize (c :: s) = c :: after_char s.
Proof.
  intros Hc. unfold after_char, normalize. cbn [split]. rewrite Hc.
  destruct s as [|c' s']; [reflexivity|].
  set (l := split (c' :: s')). destruct (isspace c').
  - now destruct l.
  - destruct l as [|w [|w' ws]]; reflexivity.
Qed.

Lemma space_is_space : isspace " " = true.
Proof. reflexivity. Qed.

Lemma in_after_char (a : ascii) (s : str) :
  isspace a = false -> In a (after_char s) -> In a (normalize s).
Proof.
  intros Ha. unfold after_char. destruct s as [|c s']; [intros []|].
  destruct (isspace c); [|tauto].
  destruct (split (c :: s')); [intros []|].
  intros [<-|H]; [|exact H]. now rewrite space_is_space in Ha.
Qed.

Lemma in_normalize (a : ascii) (s : str) :
  isspace a = false -> In a (normalize s) -> In a s.
Proof.
  intros Ha. induction s as [|c s IH]; [intros []|].
  destruct (isspace c) eqn:Hc.
  - rewrite normalize_space by exact Hc. intros H. right. now apply IH.
  - rewrite normalize_char by exact Hc.
    intros [->|H]; [now left|]. right. now apply IH, in_after_char.
Qed.

(** A character of the cleaned-up text that is not whitespace starts
    the clean-up of a suffix of the text. *)
Lemma suffix_lift (s : str) :
  forall (pre : str) (c : ascii) (t : str),
    isspace c = false ->
    normalize s = pre ++ c :: t ->
    exists pre' s', s = pre' ++ c :: s' /\ normalize (c :: s') = c :: t.
Proof.
  induction s as [|a s IH]; intros pre c t Hc H.
  - now destruct pre.
  - destruct (isspace a) eqn:Ha.
    + rewrite normalize_space in H by exact Ha.
      destruct (IH pre c t Hc H) as (pre' & s' & -> & Hn).
      now exists (a :: pre'), s'.
    + pose proof H as H0. rewrite normalize_char in H by exact Ha.
      destruct pre as [|a' pre].
      * injection H as -> _. exists [], s. now split.
      * injection H as <- H. unfold after_char in H.
        destruct s as [|b s']; [now destruct pre|].
        assert (Hrec : exists pre2, normalize (b :: s') = pre2 ++ c :: t).
        { destruct (isspace b); [|now exists pre].
          destruct (split (b :: s')); [now destruct pre|].
          destruct pre as [|sp pre]; injection H as Hsp H.
          - rewrite <- Hsp in Hc. now rewrite space_is_space in Hc.
          - now exists pre. }
        destruct Hrec as (pre2 & Hrec).
        destruct (IH pre2 c t Hc Hrec) as (pre' & s'' & Hs & Hn).
        exists (a :: pre'), s''. split; [now rewrite Hs | exact Hn].
Qed.

(** Two neighbours of the cleaned-up text that are not whitespace are
    neighbours in the text. *)
Lemma char_lift (c d : ascii) (s t : str) :
  isspace c = false -> isspace d = false ->
  normalize (c :: s) = c :: d :: t ->
  exists s', s = d :: s' /\ normalize (d :: s') = d :: t.
Proof.
  intros Hc Hd H. rewrite normalize_char in H by exact Hc.
  injection H as H. unfold after_char in H.
  destruct s as [|b s']; [discriminate|].
  destruct (isspace b) eqn:Hb.
  - destruct (split (b :: s')); [discriminate|].
    injection H as Hsp _. rewrite <- Hsp in Hd.
    now rewrite space_is_space in Hd.
  - pose proof H as H0. rewrite normalize_char in H0 by exact Hb.
    injection H0 as -> _. now exists s'.
Qed.

(** The same for a run of such characters. *)
Lemma run_lift (w : str) :
  forall (c z : ascii) (s t : str),
    isspace c = false ->
    Forall (fun a => isspace a = false) w ->
    isspace z = false ->
    normalize (c :: s) = c :: w ++ z :: t ->
    exists s', s = w ++ z :: s' /\ normalize (z :: s') = z :: t.
Proof.
  induction w as [|d w IH]; intros c z s t Hc Hw Hz H.
  - now apply (char_lift c z).
  - apply List.Forall_cons_iff in Hw as [Hd Hw].
    destruct (char_lift c d s (w ++ z :: t) Hc Hd H) as (s1 & -> & H1).
    destruct (IH d z s1 t Hd Hw Hz H1) as (s' & -> & H2).
    now exists s'.
Qed.

Lemma in_split_first (z : ascii) (s : str) :
  In z s -> exists l1 l2, s = l1 ++ z :: l2 /\ ~ In z l1.
Proof.
  induction s as [|a s IH]; [intros []|].
  destruct (ascii_dec a z) as [->|Hne].
  - intros _. exists [], s. split; [reflexivity | intros []].
  - intros [H|H]; [congruence|].
    destruct (IH H) as (l1 & l2 & -> & Hl1).
    exists (a :: l1), l2. split; [reflexivity|].
    intros [Ha|Hin]; [congruence | now apply Hl1].
Qed.

(** A closing character found after a character [c] in the cleaned-up
    text, with something in between, is found the same way in the text. *)
Lemma closing_lift (c z : ascii) (s mid post : str) :
  isspace c = false -> isspace z = false ->
  normalize (c :: s) = c :: mid ++ z :: post ->
  mid <> [] -> ~ In z mid ->
  exists mid' post', s = mid' ++ z :: post' /\ mid' <> [] /\ ~ In z mid'.
Proof.
  intros Hc Hz H Hne Hmid.
  rewrite normalize_char in H by exact Hc. injection H as H.
  assert (Hin : In z s).
  { apply in_normalize; [exact Hz|]. apply in_after_char; [exact Hz|].
    rewrite H. apply in_or_app. right. now left. }
  destruct (in_split_first z s Hin) as (l1 & l2 & -> & Hl1).
  exists l1, l2. split; [reflexivity|]. split; [|exact Hl1].
  intros ->. cbn [app after_char] in H. rewrite Hz in H.
  rewrite normalize_char in H by exact Hz.
  destruct mid as [|m mid]; [congruence|].
  injection H as <- _. apply Hmid. now left.
Qed.

Lemma letter_not_space (a : ascii) : Re.letter a = true -> isspace a = false.
Proof.
  unfold Re.letter, Re.lower, Re.upper, isspace, in_range, code. intros H.
  apply orb_true_iff in H.
  repeat (apply orb_false_iff; split);
    try apply andb_false_iff; rewrite ?N.leb_gt, ?N.eqb_neq;
    destruct H as [H|H]; apply andb_true_iff in H as [H1 H2];
    apply N.leb_le in H1, H2; lia.
Qed.

Lemma angle_span_lift (s : str) :
  angle_span (normalize s) -> angle_span s.
Proof.
  intros (pre & mid & post & H & Hne & Hmid).
  apply suffix_lift in H as (pre' & s' & -> & H); [|reflexivity].
  apply closing_lift in H as (mid' & post' & -> & Hne' & Hmid');
    [|reflexivity|reflexivity|exact Hne|exact Hmid].
  now exists pre', mid', post'.
Qed.

Lemma redaction_span_lift (s : str) :
  redaction_span (normalize s) -> redaction_span s.
Proof.
  intros (pre & mid & post & H & Hne & Hmid).
  apply suffix_lift in H as (pre' & s1 & -> & H); [|reflexivity].
  apply (run_lift "RD" "/" "-" s1 (mid ++ "/" ++ post)) in H
    as (s2 & -> & H); [|reflexivity|now repeat constructor|reflexivity].
  apply closing_lift in H as (mid' & post' & -> & Hne' & Hmid');
    [|reflexivity|reflexivity|exact Hne|exact Hmid].
  now exists pre', mid', post'.
Qed.

Lemma descriptor_span_lift (s : str) :
  descriptor_span (normalize s) -> descriptor_span s.
Proof.
  intros (pre & mid & post & H & Hne & Hmid).
  apply suffix_lift in H as (pre' & s1 & -> & H); [|reflexivity].
  apply (run_lift mid "(" ")" s1 post) in H as (s2 & -> & _);
    [|reflexivity| |reflexivity].
  - now exists pre', mid, s2.
  - eapply List.Forall_impl; [|exact Hmid]. apply letter_not_space.
Qed.

Lemma already_clean_normalize (s : str) :
  already_clean s -> already_clean (normalize s).
Proof.
  intros (Hl & Hr & Ha & Hd & Hp).
  refine (conj _ (conj _ (conj _ (conj _ _)))).
  - intros H. now apply Hl, in_normalize.
  - intros H. now apply Hr, in_normalize.
  - intros H. now apply Ha, angle_span_lift.
  - intros H. now apply Hd, redaction_span_lift.
  - intros H. now apply Hp, descriptor_span_lift.
Qed.

(** On content without markup, text mode only cleans up whitespace. *)
Lemma clean_content_already_clean (s : str) :
  already_clean s -> PushToHuggingface.clean_content s = normalize s.
Proof.
  intros (Hl & Hr & Ha & Hd & Hp).
  unfold PushToHuggingface.clean_content, normalize. cbv zeta.
  assert (H1 : Re.sub PushToHuggingface.bracket_re [] s = s).
  { apply (sub_first_class_absent (Re.any_of "[]")).
    apply List.Forall_forall. intros a Hin.
    unfold Re.any_of. cbn [existsb list_ascii_of_string].
    destruct (Ascii.eqb_spec a "[") as [->|_]; [contradiction|].
    destruct (Ascii.eqb_spec a "]") as [->|_]; [contradiction|].
    reflexivity. }
  assert (H2 : Re.sub PushToHuggingface.angle_re [] s = s).
  { apply sub_no_match. intros pre t ->.
    destruct (Re.match_items _ t) as [[ps r]|] eqn:Hm; [|reflexivity].
    apply angle_match in Hm as (mid & post & -> & Hne & Hmid).
    exfalso. apply Ha. now exists pre, mid, post. }
  assert (H3 : Re.sub PushToHuggingface.redaction_re [] s = s).
  { apply sub_no_match. intros pre t ->.
    destruct (Re.match_items _ t) as [[ps r]|] eqn:Hm; [|reflexivity].
    apply redaction_match in Hm as (mid & post & -> & Hne & Hmid).
    exfalso. apply Hd. now exists pre, mid, post. }
  assert (H4 : Re.sub PushToHuggingface.descriptor_re [] s = s).
  { apply sub_no_match. intros pre t ->.
    destruct (Re.match_items _ t) as [[ps r]|] eqn:Hm; [|reflexivity].
    apply descriptor_match in Hm as (mid & post & -> & Hne & Hmid).
    exfalso. apply Hp. now exists pre, mid, post. }
  now rewrite H1, H2, H3, H4.
Qed.

End Normalize.

(** C8: on content that is already clean (no square bracket, no
    angle-bracket span, no [/RD-.../] span, no parenthesized one-word
    descriptor) text-mode cleaning is idempotent: cleaning its own output
    gives that output again. *)
Theorem C8_cleaning_idempotent_on_clean_content (content : str) :
  already_clean content ->
  PushToHuggingface.clean_content (PushToHuggingface.clean_content content)
  = PushToHuggingface.clean_content content.
Proof.
  intros H. rewrite (clean_content_already_clean content H).
  rewrite clean_content_already_clean by now apply already_clean_normalize.
  apply normalize_idempotent.
Qed.

Lemma C8_cleaning_idempotent_on_clean_content_witness :
  PushToHuggingface.clean_content
    (PushToHuggingface.clean_content "  so < I  (said RD-NAME  hello ")
  = PushToHuggingface.clean_content "  so < I  (said RD-NAME  hello ".
Proof.
  apply (C8_cleaning_idempotent_on_clean_content
           "  so < I  (said RD-NAME  hello ").
  assert (Hnot : forall z : ascii,
             ~ In z ("  so < I  (said RD-NAME  hello " : str) ->
             forall pre mid post : str,
               ("  so < I  (said RD-NAME  hello " : str)
               <> pre ++ mid ++ z :: post).
  { intros z Hz pre mid post H. apply Hz. rewrite H.
    apply in_or_app. right. apply in_or_app. right. now left. }
  refine (conj _ (conj _ (conj _ (conj _ _)))).
  - vm_compute. intuition discriminate.
  - vm_compute. intuition discriminate.
  - intros (pre & mid & post & H & _).
    refine (Hnot ">"%char _ pre ("<"%char :: mid) post H).
    vm_compute. intuition discriminate.
  - intros (pre & mid & post & H & _).
    refine (Hnot "/"%char _ pre ("/RD-" ++ mid) post H).
    vm_compute. intuition discriminate.
  - intros (pre & mid & post & H & _).
    refine (Hnot ")"%char _ pre ("("%char :: mid) post H).
    vm_compute. intuition discriminate.
Defined.

(** * Further properties of the two scripts *)

(** ** Tokens across a space, joins of token lists *)
Section Tokens.

Lemma split_starts_nonempty (c : ascii) (s : str) :
  isspace c = false -> split (c :: s) <> [].
Proof.
  intros Hc. cbn [split]. rewrite Hc. destruct s as [|c' s']; [discriminate|].
  destruct (isspace c'); [discriminate|].
  destruct (split (c' :: s')); discriminate.
Qed.

(** Splitting a text at a whitespace character splits its token list. *)
Lemma split_app_space (a b : str) (c : ascii) :
  isspace c = true -> split (a ++ c :: b) = split a ++ split b.
Proof.
  intros Hc. induction a as [|x a IH].
  - cbn [app split]. now rewrite Hc.
  - cbn [app]. cbn [split]. destruct (isspace x) eqn:Hx; [exact IH|].
    destruct a as [|y a'].
    + cbn [app]. rewrite Hc. cbn [split]. now rewrite Hc.
    + cbn [app] in *. destruct (isspace y) eqn:Hy.
      * now rewrite IH.
      * rewrite IH. pose proof (split_starts_nonempty y a' Hy) as Hne.
        now destruct (split (y :: a')).
Qed.

Lemma join_cons (sep w : str) (l : list str) :
  l <> [] -> join sep (w :: l) = w ++ sep ++ join sep l.
Proof. now destruct l. Qed.

Lemma join_app (sep : str) (l1 l2 : list str) :
  l1 <> [] -> l2 <> [] ->
  join sep (l1 ++ l2) = join sep l1 ++ sep ++ join sep l2.
Proof.
  intros H1 H2. induction l1 as [|w l1 IH]; [congruence|].
  destruct l1 as [|w' l1].
  - cbn [app]. now rewrite join_cons.
  - change ((w :: w' :: l1) ++ l2) with (w :: (w' :: l1) ++ l2).
    rewrite join_cons by discriminate. rewrite IH by discriminate.
    rewrite (join_cons sep w (w' :: l1)) by discriminate.
    now rewrite <- !app_assoc.
Qed.

(** The tokens of a joined list are the tokens of its members. *)
Lemma split_join_concat (texts : list str) :
  split (join " " texts) = concat (map split texts).
Proof.
  induction texts as [|t texts IH]; [reflexivity|].
  destruct texts as [|t' texts].
  - cbn. now rewrite app_nil_r.
  - rewrite join_cons by discriminate.
    change ((" " : str) ++ join " " (t' :: texts))
      with (" "%char :: join " " (t' :: texts)).
    rewrite split_app_space by reflexivity. now rewrite IH.
Qed.

Lemma normalized_split_nonempty (t : str) :
  t <> [] -> normalize t = t -> split t <> [].
Proof. intros Hne Hn Hs. unfold normalize in Hn. rewrite Hs in Hn. now subst. Qed.

(** Joining texts that are already cleaned up gives a cleaned-up text. *)
Lemma normalize_join (texts : list str) :
  Forall (fun t => t <> [] /\ normalize t = t) texts ->
  normalize (join " " texts) = join " " texts.
Proof.
  intros H. unfold normalize at 1. rewrite split_join_concat.
  induction H as [|t texts [Hne Hn] Hrest IH]; [reflexivity|].
  cbn [map concat]. destruct texts as [|t' texts].
  - cbn. now rewrite app_nil_r.
  - rewrite join_app.
    + rewrite IH. fold (normalize t). rewrite Hn.
      now rewrite (join_cons " " t (t' :: texts)) by discriminate.
    + now apply normalized_split_nonempty.
    + apply List.Forall_cons_iff in Hrest as [[Hne' Hn'] _].
      cbn [map concat]. intros Happ. apply app_eq_nil in Happ as [Hs _].
      now apply (normalized_split_nonempty t').
Qed.

Lemma in_join (a : ascii) (sep : str) (l : list str) :
  In a (join sep l) -> In a sep \/ exists t, In t l /\ In a t.
Proof.
  induction l as [|w l IH]; [intros []|].
  destruct l as [|w' l].
  - intros H. right. exists w. split; [now left | exact H].
  - rewrite join_cons by discriminate. intros H.
    apply in_app_or in H as [H|H]; [right; exists w; split; [now left|exact H]|].
    apply in_app_or in H as [H|H]; [now left|].
    destruct (IH H) as [Hs|(t & Ht & Hat)]; [now left|].
    right. exists t. split; [now right | exact Hat].
Qed.

End Tokens.

(** ** Deleting matches only deletes *)
Section SubDeletes.

Lemma in_sub_from_delete (p : Re.pattern) (a : ascii) (s : str) :
  forall skip, In a (Re.sub_from p [] skip s) -> In a s.
Proof.
  induction s as [|c s IH]; intros skip H.
  - destruct skip; cbn [Re.sub_from] in H.
    + destruct (Re.match_length p []) as [[|n]|]; destruct H.
    + destruct H.
  - destruct skip as [|n]; cbn [Re.sub_from] in H.
    + destruct (Re.match_length p (c :: s)) as [[|m]|]; cbn [app] in H.
      * destruct H as [->|H]; [now left | right; now apply (IH 0)].
      * right. now apply (IH m).
      * destruct H as [->|H]; [now left | right; now apply (IH 0)].
    + right. now apply (IH n).
Qed.

(** A substitution by the empty string adds no character. *)
Lemma in_sub_delete (p : Re.pattern) (a : ascii) (s : str) :
  In a (Re.sub p [] s) -> In a s.
Proof. apply in_sub_from_delete. Qed.

Lemma clean_content_no_bracket (content : str) (a : ascii) :
  Re.any_of "[]" a = true ->
  ~ In a (PushToHuggingface.clean_content content).
Proof.
  intros Ha H. unfold PushToHuggingface.clean_content in H. cbv zeta in H.
  assert (Hns : isspace a = false).
  { unfold Re.any_of in Ha. cbn [existsb list_ascii_of_string] in Ha.
    rewrite orb_false_r in Ha. apply orb_true_iff in Ha as [Ha|Ha];
      apply Ascii.eqb_eq in Ha; now subst. }
  apply (in_normalize a _ Hns) in H.
  do 3 apply in_sub_delete in H.
  unfold PushToHuggingface.bracket_re in H. rewrite sub_class_filter in H.
  apply List.filter_In in H as [_ H]. now rewrite Ha in H.
Qed.

End SubDeletes.

(** ** The text a transcript yields *)
Section ExtractedText.

Lemma clean_content_normalized (content : str) :
  normalize (PushToHuggingface.clean_content content)
  = PushToHuggingface.clean_content content.
Proof. apply normalize_idempotent. Qed.

(** What the loop over the lines keeps true of every fragment. *)
Lemma text_lines_invariant (P : str -> Prop) (lines : list str) :
  (forall content,
      PushToHuggingface.clean_content content <> [] ->
      P (PushToHuggingface.clean_content content)) ->
  forall texts,
    Forall P texts ->
    Forall P (fold_left PushToHuggingface.text_line lines texts).
Proof.
  intros HP. induction lines as [|line lines IH]; intros texts H; [exact H|].
  cbn [fold_left]. apply IH. unfold PushToHuggingface.text_line.
  destruct (4 <=? _)%nat; [|exact H].
  destruct (startswith _ _); [exact H|].
  destruct (is_empty (nth 3 _ _)); [exact H|].
  destruct (PushToHuggingface.clean_content _) as [|c t] eqn:Hc; [exact H|].
  cbn [is_empty]. apply List.Forall_app. split; [exact H|].
  constructor; [|constructor]. rewrite <- Hc. apply HP. now rewrite Hc.
Qed.

(** The fragments of any file behaviour satisfy what the loop keeps
    true; after a failure there are none. *)
Lemma extract_text_cases (txt_path : str) (f : file) :
  fst (PushToHuggingface.extract_text_from_txt txt_path f) = []
  \/ exists lines,
       fst (PushToHuggingface.extract_text_from_txt txt_path f)
       = join " " (fold_left PushToHuggingface.text_line lines []).
Proof.
  destruct f as [msg|lines [msg|]].
  - now left.
  - left. now rewrite extract_text_broken.
  - destruct lines as [|header lines]; [now left|].
    right. now exists lines.
Qed.

End ExtractedText.

(** X1: the text [extract_text_from_txt] returns is cleaned up, whatever
    the file does: it has no leading or trailing whitespace and its words
    are separated by single spaces, so cleaning it up again changes
    nothing. *)
Theorem X1_extracted_text_is_normalized (txt_path : str) (f : file) :
  normalize (fst (PushToHuggingface.extract_text_from_txt txt_path f))
  = fst (PushToHuggingface.extract_text_from_txt txt_path f).
Proof.
  destruct (extract_text_cases txt_path f) as [->|(lines & ->)];
    [reflexivity|].
  apply normalize_join.
  apply (text_lines_invariant (fun t => t <> [] /\ normalize t = t));
    [|constructor].
  intros content Hne. split; [exact Hne | apply clean_content_normalized].
Qed.

(** X2: the text [extract_text_from_txt] returns never holds a square
    bracket. *)
Theorem X2_extracted_text_has_no_bracket (txt_path : str) (f : file) :
  ~ In "["%char (fst (PushToHuggingface.extract_text_from_txt txt_path f))
  /\ ~ In "]"%char (fst (PushToHuggingface.extract_text_from_txt txt_path f)).
Proof.
  assert (H : forall a, Re.any_of "[]" a = true ->
              ~ In a (fst (PushToHuggingface.extract_text_from_txt txt_path f))).
  { intros a Ha Hin.
    destruct (extract_text_cases txt_path f) as [Hf|(lines & Hf)];
      rewrite Hf in Hin; [destruct Hin|].
    apply in_join in Hin as [Hin|(t & Ht & Hat)].
    - destruct Hin as [<-|[]]. discriminate Ha.
    - pose proof (text_lines_invariant (fun t => ~ In a t) lines
                    (fun c _ => clean_content_no_bracket c a Ha) []
                    (List.Forall_nil _)) as Hall.
      exact (proj1 (List.Forall_forall _ _) Hall t Ht Hat). }
  split; apply H; reflexivity.
Qed.

(** ** Transcripts in pieces *)
Section Pieces.

Lemma fold_text_line_acc (lines : list str) :
  forall texts,
    fold_left PushToHuggingface.text_line lines texts
    = texts ++ fold_left PushToHuggingface.text_line lines [].
Proof.
  induction lines as [|line lines IH]; intros texts.
  - now rewrite app_nil_r.
  - cbn [fold_left]. rewrite IH, (IH (PushToHuggingface.text_line [] line)).
    now rewrite text_line_app, <- app_assoc.
Qed.

Lemma fold_count_line_acc (lines : list str) :
  forall n,
    fold_left VerifyStats.count_line lines n
    = n + fold_left VerifyStats.count_line lines 0.
Proof.
  induction lines as [|line lines IH]; intros n.
  - cbn. lia.
  - cbn [fold_left]. rewrite IH, (IH (VerifyStats.count_line 0 line)).
    rewrite count_line_add. lia.
Qed.

Lemma text_fragments_nonempty (lines : list str) :
  Forall (fun t => t <> []) (fold_left PushToHuggingface.text_line lines []).
Proof.
  apply (text_lines_invariant (fun t => t <> [])); [|constructor].
  intros content H. exact H.
Qed.

Lemma join_fragments_empty (texts : list str) :
  Forall (fun t => t <> []) texts -> join " " texts = [] -> texts = [].
Proof.
  intros H Hj. destruct H as [|t texts Ht Hrest]; [reflexivity|].
  destruct texts as [|t' texts]; [now cbn in Hj|].
  rewrite join_cons in Hj by discriminate. now destruct t.
Qed.

End Pieces.

(** X3: a transcript read without failure whose data lines are [l1]
    followed by [l2] gives the word count of [l1] plus that of [l2], and
    the text of [l1] and the text of [l2] joined by one space, an empty
    text leaving no space behind. *)
Theorem X3_transcript_in_two_parts (txt_path h h1 h2 : str) (l1 l2 : list str) :
  fst (VerifyStats.count_words_from_txt txt_path
         (Readable (h :: l1 ++ l2) None))
  = fst (VerifyStats.count_words_from_txt txt_path (Readable (h1 :: l1) None))
    + fst (VerifyStats.count_words_from_txt txt_path (Readable (h2 :: l2) None))
  /\ fst (PushToHuggingface.extract_text_from_txt txt_path
            (Readable (h :: l1 ++ l2) None))
     = join " "
         (List.filter (fun t => negb (is_empty t))
            [ fst (PushToHuggingface.extract_text_from_txt txt_path
                     (Readable (h1 :: l1) None));
              fst (PushToHuggingface.extract_text_from_txt txt_path
                     (Readable (h2 :: l2) None)) ]).
Proof.
  split.
  - change (fold_left VerifyStats.count_line (l1 ++ l2) 0
            = fold_left VerifyStats.count_line l1 0
              + fold_left VerifyStats.count_line l2 0).
    now rewrite fold_left_app, fold_count_line_acc.
  - change (join " " (fold_left PushToHuggingface.text_line (l1 ++ l2) [])
            = join " "
                (List.filter (fun t => negb (is_empty t))
                   [ join " " (fold_left PushToHuggingface.text_line l1 []);
                     join " " (fold_left PushToHuggingface.text_line l2 []) ])).
    rewrite fold_left_app, fold_text_line_acc.
    pose proof (text_fragments_nonempty l1) as H1.
    pose proof (text_fragments_nonempty l2) as H2.
    set (t1 := fold_left PushToHuggingface.text_line l1 []) in *.
    set (t2 := fold_left PushToHuggingface.text_line l2 []) in *.
    cbn [List.filter].
    destruct (join " " t1) as [|a1 j1] eqn:E1;
      destruct (join " " t2) as [|a2 j2] eqn:E2; cbn [is_empty negb].
    + apply join_fragments_empty in E1, E2; [|assumption..]. now rewrite E1, E2.
    + apply join_fragments_empty in E1; [|assumption]. rewrite E1. cbn [app].
      now rewrite E2.
    + apply join_fragments_empty in E2; [|assumption]. rewrite E2, app_nil_r.
      now rewrite E1.
    + rewrite join_app.
      * rewrite E1, E2. reflexivity.
      * intros ->. discriminate E1.
      * intros ->. discriminate E2.
Qed.

(** ** The two scripts on the same transcript *)
Section FileModes.

Lemma line_modes_agree (line : str) :
  plain_line line ->
  VerifyStats.count_line 0 line
  = length (concat (map split (PushToHuggingface.text_line [] line))).
Proof.
  intros Hplain. rewrite <- split_join_concat.
  unfold VerifyStats.count_line, PushToHuggingface.text_line.
  fold (content_of line).
  destruct (4 <=? length (split_on TAB (strip line)))%nat; [|reflexivity].
  destruct Hplain as [Hpause|[Hfree Hrd]]; [now rewrite Hpause|].
  destruct (startswith (content_of line) "(pause"); [reflexivity|].
  destruct (is_empty (content_of line)); [reflexivity|].
  rewrite clean_content_markup_free by exact Hfree.
  rewrite content_words_markup_free by assumption.
  destruct (normalize (content_of line)) as [|a t] eqn:Hn.
  - apply normalize_empty in Hn. now rewrite Hn.
  - cbn [is_empty app join]. now rewrite <- Hn, split_normalize.
Qed.

Lemma lines_modes_agree (lines : list str) :
  Forall plain_line lines ->
  fold_left VerifyStats.count_line lines 0
  = length (concat (map split
                      (fold_left PushToHuggingface.text_line lines []))).
Proof.
  induction 1 as [|line lines Hl _ IH]; [reflexivity|].
  cbn [fold_left]. rewrite fold_count_line_acc, fold_text_line_acc.
  rewrite map_app, concat_app, length_app, IH.
  now rewrite line_modes_agree.
Qed.

End FileModes.

(** X4: on a transcript read without failure whose data lines are pauses
    or have no markup character ([[], []], [<], [/], [(]) and no token
    beginning with [RD-], the two scripts agree: the word count of
    [verify_stats.py] is the number of words of the text
    [push_to_huggingface.py] extracts. *)
Theorem X4_scripts_agree_on_plain_transcripts (txt_path header : str)
    (lines : list str) :
  Forall plain_line lines ->
  fst (VerifyStats.count_words_from_txt txt_path
         (Readable (header :: lines) None))
  = length (split (fst (PushToHuggingface.extract_text_from_txt txt_path
                          (Readable (header :: lines) None)))).
Proof.
  intros H.
  change (fold_left VerifyStats.count_line lines 0
          = length (split (join " "
                             (fold_left PushToHuggingface.text_line lines [])))).
  rewrite split_join_concat. now apply lines_modes_agree.
Qed.

Lemma X4_scripts_agree_on_plain_transcripts_witness :
  fst (VerifyStats.count_words_from_txt "t.txt"
         (Readable [ transcript_line "Content";
                     transcript_line " so  I said";
                     transcript_line "(pause 0.30)";
                     transcript_line "hello" ] None))
  = length (split (fst (PushToHuggingface.extract_text_from_txt "t.txt"
                          (Readable [ transcript_line "Content";
                                      transcript_line " so  I said";
                                      transcript_line "(pause 0.30)";
                                      transcript_line "hello" ] None)))).
Proof.
  apply (X4_scripts_agree_on_plain_transcripts "t.txt"
           (transcript_line "Content")
           [ transcript_line " so  I said"; transcript_line "(pause 0.30)";
             transcript_line "hello" ]).
  constructor; [|constructor; [|constructor; [|constructor]]].
  - right. split; vm_compute; repeat constructor.
  - left. vm_compute. reflexivity.
  - right. split; vm_compute; repeat constructor.
Defined.

(** ** Redaction spans *)
Section Redaction.

Lemma sub_from_skip (p : Re.pattern) (repl w r : str) :
  Re.sub_from p repl (length w) (w ++ r) = Re.sub_from p repl 0 r.
Proof.
  induction w as [|a w IH]; [reflexivity|].
  cbn [length app Re.sub_from]. exact IH.
Qed.

(** A match at the head of the text is replaced and the substitution goes
    on after it. *)
Lemma sub_head_match (p : Re.pattern) (repl : str) (a : ascii) (w r : str)
    (ps : list str) :
  Re.match_items p (a :: w ++ r) = Some (ps, r) ->
  length (concat ps) = S (length w) ->
  Re.sub p repl (a :: w ++ r) = repl ++ Re.sub p repl r.
Proof.
  intros Hm Hlen. unfold Re.sub. cbn [Re.sub_from].
  unfold Re.match_length. rewrite Hm, Hlen. now rewrite sub_from_skip.
Qed.

(** The substitution passes over a prefix the first class rejects. *)
Lemma sub_app_absent (c : ascii -> bool) (p : Re.pattern) (repl pre t : str) :
  Forall (fun a => c a = false) pre ->
  Re.sub (Re.Item c Re.One :: p) repl (pre ++ t)
  = pre ++ Re.sub (Re.Item c Re.One :: p) repl t.
Proof.
  unfold Re.sub. induction 1 as [|a pre Ha _ IH]; [reflexivity|].
  cbn [app Re.sub_from]. unfold Re.match_length at 1.
  cbn [Re.match_items Re.rep Re.cls]. rewrite Ha. now rewrite IH.
Qed.

Lemma redaction_span_match (mid post : str) :
  mid <> [] -> ~ In "/"%char mid ->
  Re.match_items PushToHuggingface.redaction_re
    ("/"%char :: ("RD-" ++ mid ++ ["/"%char]) ++ post)
  = Some ([ ["/"%char]; ["R"%char]; ["D"%char]; ["-"%char]; mid;
            ["/"%char] ], post).
Proof.
  intros Hne Hmid.
  change PushToHuggingface.redaction_re with
    (Re.Item (Re.chr "/") Re.One :: Re.Item (Re.chr "R") Re.One
       :: Re.Item (Re.chr "D") Re.One :: Re.Item (Re.chr "-") Re.One
       :: Re.Item (Re.none_of "/") Re.Plus
       :: [Re.Item (Re.chr "/") Re.One]).
  replace ("/"%char :: ("RD-" ++ mid ++ ["/"%char]) ++ post)
    with ("/"%char :: "R"%char :: "D"%char :: "-"%char
            :: mid ++ "/"%char :: post)
    by (cbn [app list_ascii_of_string]; now rewrite <- app_assoc).
  do 4 (apply match_one; [reflexivity|]).
  apply match_plus_run.
  - exact Hne.
  - apply List.Forall_forall. intros a Ha. unfold Re.none_of, Re.any_of.
    cbn [existsb list_ascii_of_string]. rewrite orb_false_r.
    destruct (Ascii.eqb_spec a "/") as [->|_]; [contradiction | reflexivity].
  - right. exists "/"%char. now split.
  - now apply match_one.
Qed.

Lemma markup_free_app (a b : str) :
  markup_free a -> markup_free b -> markup_free (a ++ b).
Proof. intros Ha Hb. apply List.Forall_app. now split. Qed.

(** The character map word-count mode starts with. *)
Lemma markup_sub_app (a b : str) :
  Re.sub VerifyStats.markup_re " " (a ++ b)
  = Re.sub VerifyStats.markup_re " " a ++ Re.sub VerifyStats.markup_re " " b.
Proof.
  unfold VerifyStats.markup_re. change (" " : str) with [" "%char].
  rewrite !sub_class_map. apply map_app.
Qed.

Lemma markup_sub_redaction_text (mid : str) :
  redaction_text mid -> Re.sub VerifyStats.markup_re " " mid = mid.
Proof.
  intros H. unfold VerifyStats.markup_re. change (" " : str) with [" "%char].
  rewrite sub_class_map. induction H as [|a mid Ha _ IH]; [reflexivity|].
  cbn [map]. now rewrite Ha, IH.
Qed.

Lemma content_words_tokens (content : str) :
  VerifyStats.content_words content
  = List.filter (fun w => negb (is_empty w) && negb (startswith w "RD-"))
      (split (Re.sub VerifyStats.markup_re " " content)).
Proof.
  unfold VerifyStats.content_words. cbv zeta.
  assert (H : Re.sub VerifyStats.redaction_re []
                (Re.sub VerifyStats.markup_re " " content)
              = Re.sub VerifyStats.markup_re " " content).
  { apply (sub_first_class_absent (Re.chr "/")), markup_sub_no_slash. }
  now rewrite H.
Qed.

End Redaction.

(** X5: in text mode a redaction span [/RD-...-/] standing in content
    that has no other markup is removed whole: the cleaned content is the
    clean-up of what stands before and after the span, joined without a
    space of their own. *)
Theorem X5_text_mode_removes_redaction (pre mid post : str) :
  markup_free pre -> markup_free post ->
  mid <> [] -> redaction_text mid ->
  PushToHuggingface.clean_content (pre ++ "/RD-" ++ mid ++ "/" ++ post)
  = normalize (pre ++ post).
Proof.
  intros Hpre Hpost Hne Hmid.
  assert (Hclass : forall (c : ascii -> bool),
             (forall a, Re.any_of "[]</(" a = false -> c a = false) ->
             (forall a, Re.any_of "<[]/" a = false -> c a = false) ->
             c "/"%char = false -> c "R"%char = false -> c "D"%char = false ->
             c "-"%char = false ->
             Forall (fun a => c a = false)
               (pre ++ "/RD-" ++ mid ++ "/" ++ post)).
  { intros c H1 H2 Hs HR HD Hd.
    apply List.Forall_app. split; [now apply markup_free_forall|].
    do 4 (constructor; [assumption|]).
    apply List.Forall_app. split.
    - eapply List.Forall_impl; [|exact Hmid]. exact H2.
    - constructor; [assumption | now apply markup_free_forall]. }
  unfold PushToHuggingface.clean_content. cbv zeta.
  assert (H1 : Re.sub PushToHuggingface.bracket_re []
                 (pre ++ "/RD-" ++ mid ++ "/" ++ post)
               = pre ++ "/RD-" ++ mid ++ "/" ++ post).
  { apply (sub_first_class_absent (Re.any_of "[]")). apply Hclass;
      try reflexivity.
    - intros a Ha. now apply markup_free_classes in Ha.
    - intros a. unfold Re.any_of. cbn [existsb list_ascii_of_string].
      intros Ha. repeat (apply orb_false_iff in Ha as [? Ha]).
      repeat (apply orb_false_iff; split); assumption. }
  assert (H2 : Re.sub PushToHuggingface.angle_re []
                 (pre ++ "/RD-" ++ mid ++ "/" ++ post)
               = pre ++ "/RD-" ++ mid ++ "/" ++ post).
  { apply (sub_first_class_absent (Re.chr "<")). apply Hclass;
      try reflexivity.
    - intros a Ha. now apply markup_free_classes in Ha.
    - intros a. unfold Re.any_of, Re.chr. cbn [existsb list_ascii_of_string].
      intros Ha. now apply orb_false_iff in Ha as [? _]. }
  assert (H3 : Re.sub PushToHuggingface.redaction_re []
                 (pre ++ "/RD-" ++ mid ++ "/" ++ post)
               = pre ++ post).
  { change PushToHuggingface.redaction_re with
      (Re.Item (Re.chr "/") Re.One :: tl PushToHuggingface.redaction_re).
    rewrite sub_app_absent.
    2:{ apply markup_free_forall; [exact Hpre|].
        intros a Ha. now apply markup_free_classes in Ha. }
    f_equal.
    change (Re.Item (Re.chr "/") Re.One :: tl PushToHuggingface.redaction_re)
      with PushToHuggingface.redaction_re.
    replace (("/RD-" : str) ++ mid ++ "/" ++ post)
      with ("/"%char :: ("RD-" ++ mid ++ ["/"%char]) ++ post)
      by (cbn [app list_ascii_of_string]; now rewrite <- app_assoc).
    rewrite (sub_head_match _ [] _ _ _ _
               (redaction_span_match mid post Hne
                  ltac:(intros Hin;
                        apply (proj1 (List.Forall_forall _ _) Hmid) in Hin;
                        discriminate Hin))).
    - cbn [app]. apply (sub_first_class_absent (Re.chr "/")).
      apply markup_free_forall; [exact Hpost|].
      intros a Ha. now apply markup_free_classes in Ha.
    - cbn [concat app length list_ascii_of_string].
      rewrite !length_app. cbn [length]. lia. }
  assert (H4 : Re.sub PushToHuggingface.descriptor_re [] (pre ++ post)
               = pre ++ post).
  { apply (sub_first_class_absent (Re.chr "(")).
    apply markup_free_forall; [now apply markup_free_app|].
    intros a Ha. now apply markup_free_classes in Ha. }
  now rewrite H1, H2, H3, H4.
Qed.

Lemma X5_text_mode_removes_redaction_witness :
  PushToHuggingface.clean_content
    ("I told " ++ "/RD-" ++ "NAME-2" ++ "/" ++ " about it")
  = normalize ("I told " ++ " about it").
Proof.
  apply (X5_text_mode_removes_redaction "I told " "NAME-2" " about it").
  - vm_compute. repeat constructor.
  - vm_compute. repeat constructor.
  - discriminate.
  - vm_compute. repeat constructor.
Defined.

(** X6: in word-count mode a redaction span [/RD-...-/] whose inside has
    no whitespace and no markup character counts for nothing, whatever
    stands around it: the words counted are those before the span followed
    by those after it. *)
Theorem X6_count_mode_skips_redaction (pre mid post : str) :
  redaction_text mid ->
  Forall (fun a => isspace a = false) mid ->
  VerifyStats.content_words (pre ++ "/RD-" ++ mid ++ "/" ++ post)
  = VerifyStats.content_words pre ++ VerifyStats.content_words post.
Proof.
  intros Hmid Hns. rewrite !content_words_tokens.
  replace (pre ++ "/RD-" ++ mid ++ "/" ++ post)
    with (pre ++ ["/"%char] ++ "RD-" ++ mid ++ ["/"%char] ++ post)
    by reflexivity.
  rewrite !markup_sub_app, (markup_sub_redaction_text mid Hmid).
  change (Re.sub VerifyStats.markup_re " " ["/"%char]) with [" "%char].
  change (Re.sub VerifyStats.markup_re " " "RD-") with ("RD-" : str).
  set (a := Re.sub VerifyStats.markup_re " " pre).
  set (b := Re.sub VerifyStats.markup_re " " post).
  change (a ++ [" "%char] ++ "RD-" ++ mid ++ [" "%char] ++ b)
    with (a ++ " "%char :: ("RD-" ++ mid) ++ " "%char :: b).
  assert (Htok : token ("RD-" ++ mid)).
  { split; [discriminate|]. now repeat constructor. }
  rewrite split_app_space by reflexivity.
  rewrite split_token_space by exact Htok.
  rewrite List.filter_app. cbn [List.filter]. reflexivity.
Qed.

Lemma X6_count_mode_skips_redaction_witness :
  VerifyStats.content_words
    ("I [told] " ++ "/RD-" ++ "NAME-2" ++ "/" ++ "'s <laugh> friend")
  = VerifyStats.content_words "I [told] "
    ++ VerifyStats.content_words "'s <laugh> friend".
Proof.
  apply (X6_count_mode_skips_redaction "I [told] " "NAME-2"
           "'s <laugh> friend").
  - vm_compute. repeat constructor.
  - vm_compute. repeat constructor.
Defined.

(** X7: when the first line whose stripped form begins with [xmax =] is
    followed by a run of digits and dots that [float] rejects (two dots,
    say), the duration extractor returns 0.0 and prints the error line
    with the message of the [ValueError]; it does not go on to later
    lines. *)
Theorem X7_duration_with_malformed_number
    (path : str) (before after : list str) (line ws num rest : str)
    (broken : option str) (e : exn) :
  Forall no_xmax before ->
  strip line = "xmax =" ++ ws ++ num ++ rest ->
  Forall (fun a => isspace a = true) ws ->
  num <> [] ->
  Forall (fun a => numeric a = true) num ->
  hd_error rest = None
  \/ (exists a, hd_error rest = Some a /\ numeric a = false) ->
  float num = Raise e ->
  VerifyStats.get_duration_from_textgrid path
    (Readable (before ++ line :: after) broken)
  = (0%Q, [error_line path (exn_str e)]).
Proof.
  intros Hbefore Hstrip Hws Hne Hnum Hrest Hfloat.
  destruct (xmax_search line ws num rest Hstrip Hws Hne Hnum Hrest)
    as (pieces & Hsearch & Hgroup).
  unfold VerifyStats.get_duration_from_textgrid, VerifyStats.get_duration_try.
  cbn [open pending]. rewrite scan_xmax_skip by exact Hbefore.
  cbn [VerifyStats.scan_xmax].
  rewrite Hstrip, startswith_app, Hsearch, Hgroup, Hfloat. reflexivity.
Qed.

Lemma X7_duration_with_malformed_number_witness :
  VerifyStats.get_duration_from_textgrid "a.TextGrid"
    (Readable [ "xmin = 0" ++ [NL]; "xmax = 1.2.3" ++ [NL];
                "xmax = 9" ++ [NL] ] None)
  = (0%Q,
     [ error_line "a.TextGrid"
         ("could not convert string to float: " ++ [APOSTROPHE]
            ++ "1.2.3" ++ [APOSTROPHE]) ]).
Proof.
  apply (X7_duration_with_malformed_number "a.TextGrid"
           [ "xmin = 0" ++ [NL] ] [ "xmax = 9" ++ [NL] ]
           ("xmax = 1.2.3" ++ [NL]) " " "1.2.3" [] None
           (ValueError ("could not convert string to float: "
                          ++ [APOSTROPHE] ++ "1.2.3" ++ [APOSTROPHE]))).
  - repeat constructor.
  - vm_compute. reflexivity.
  - repeat constructor.
  - discriminate.
  - repeat constructor.
  - now left.
  - vm_compute. reflexivity.
Defined.

(** ** Rows and the mapping built from them *)
Section Rows.

Lemma add_rows_last (rows : list (gmap (option str) Csv.value)) (id : str) :
  forall metadata_dict : gmap str (gmap (option str) Csv.value),
    fold_left PushToHuggingface.add_row rows metadata_dict !! id
    = match last (List.filter
                    (fun row =>
                       bool_decide
                         (PushToHuggingface.row_file_id row = Some id))
                    rows) with
      | Some row => Some row
      | None => metadata_dict !! id
      end.
Proof.
  induction rows as [|row rows IH]; intros m; [reflexivity|].
  cbn [fold_left List.filter]. rewrite IH.
  destruct (bool_decide_reflect
              (PushToHuggingface.row_file_id row = Some id)) as [Hid|Hid].
  - destruct (List.filter _ rows) as [|r rs] eqn:Hf.
    + cbn [last]. unfold PushToHuggingface.add_row. rewrite Hid.
      apply lookup_insert_eq.
    + rewrite last_cons_cons.
      destruct (last (r :: rs)) eqn:Hl; [reflexivity|].
      apply last_None in Hl. discriminate Hl.
  - destruct (last (List.filter _ rows)); [reflexivity|].
    unfold PushToHuggingface.add_row.
    destruct (PushToHuggingface.row_file_id row) as [k|] eqn:Hk;
      [|reflexivity].
    apply lookup_insert_ne. congruence.
Qed.

Lemma read_records_broken (delimiter : ascii) (msg : str) (lines : list str) :
  forall p acc,
    exists e,
      snd (Csv.read_records delimiter lines (Some msg) p acc) = Raise e.
Proof.
  induction lines as [|line lines IH]; intros p acc.
  - now exists (IOFailure msg).
  - cbn [Csv.read_records].
    destruct (Csv.feed delimiter _ p) as [p'|e]; [|now exists e].
    destruct (Csv.at_start p'); apply IH.
Qed.

End Rows.

(** X8: when the metadata file is read to its end, the entry
    [load_metadata] holds for an identifier is the last row of the table
    whose [CORAAL.File] value is that identifier, and there is no entry
    when no row has it: a later row replaces an earlier one with the same
    identifier. *)
Theorem X8_load_metadata_last_row_wins
    (path : str) (f : file) (others : list (str * file)) (h : handle)
    (rows : list (gmap (option str) Csv.value)) (id : str) :
  open f = Return h ->
  Csv.DictReader TAB h = (rows, Return tt) ->
  PushToHuggingface.load_metadata ((path, f) :: others) !! id
  = last (List.filter
            (fun row =>
               bool_decide (PushToHuggingface.row_file_id row = Some id))
            rows).
Proof.
  intros Hopen Hrows. unfold PushToHuggingface.load_metadata.
  rewrite Hopen, Hrows, add_rows_last, lookup_empty.
  now destruct (last _).
Qed.

(** X9: a metadata file that cannot be opened, or whose read fails at
    any point, gives the empty mapping: the rows read before the failure
    are dropped (unlike the word counter, which keeps its count). *)
Theorem X9_load_metadata_failure_gives_nothing
    (path msg : str) (lines : list str) (others : list (str * file)) :
  PushToHuggingface.load_metadata ((path, Unreadable msg) :: others) = ∅
  /\ PushToHuggingface.load_metadata
       ((path, Readable lines (Some msg)) :: others) = ∅.
Proof.
  split; [reflexivity|].
  unfold PushToHuggingface.load_metadata, Csv.DictReader, Csv.reader.
  cbn [open pending failure].
  destruct (read_records_broken TAB msg lines Csv.reset []) as (e & He).
  destruct (Csv.read_records TAB lines (Some msg) Csv.reset [])
    as [[|fieldnames records] r]; cbn [snd] in He; now rewrite He.
Qed.

Lemma X8_load_metadata_last_row_wins_witness :
  PushToHuggingface.load_metadata
    [("ATL_metadata.txt" : str, example_table_with_duplicate)]
    !! ("ATL_se0_ag1_f_01" : str)
  = last (List.filter
            (fun row =>
               bool_decide (PushToHuggingface.row_file_id row
                            = Some ("ATL_se0_ag1_f_01" : str)))
            (fst (Csv.DictReader TAB
                    (Handle
                       [ "CORAAL.File" ++ [TAB] ++ "Age" ++ [TAB] ++ "Gender"
                           ++ [NL];
                         "ATL_se0_ag1_f_01" ++ [TAB] ++ "19" ++ [TAB] ++ "f"
                           ++ [NL];
                         "ATL_se0_ag1_f_01" ++ [TAB] ++ "20" ++ [TAB] ++ "f"
                           ++ [NL] ]
                       None)))).
Proof.
  apply (X8_load_metadata_last_row_wins "ATL_metadata.txt"
           example_table_with_duplicate []
           (Handle
              [ "CORAAL.File" ++ [TAB] ++ "Age" ++ [TAB] ++ "Gender" ++ [NL];
                "ATL_se0_ag1_f_01" ++ [TAB] ++ "19" ++ [TAB] ++ "f" ++ [NL];
                "ATL_se0_ag1_f_01" ++ [TAB] ++ "20" ++ [TAB] ++ "f" ++ [NL] ]
              None)).
  - reflexivity.
  - apply injective_projections; [reflexivity|].
    vm_compute. reflexivity.
Defined.

(** ** [parse_filename] *)

(** X10: [parse_filename] cuts the stem of the file name at its last
    underscore, and returns the stem as it is when the stem has no
    underscore. *)
Theorem X10_parse_filename_cuts_at_last_underscore (filename : str) :
  (~ In "_"%char (Pathlib.stem filename) ->
   PushToHuggingface.parse_filename filename = Pathlib.stem filename)
  /\ (forall base session : str,
        Pathlib.stem filename = base ++ "_" ++ session ->
        ~ In "_"%char session ->
        PushToHuggingface.parse_filename filename = base).
Proof.
  unfold PushToHuggingface.parse_filename, rsplit1. split.
  - intros H. now rewrite rfind_absent.
  - intros base session -> H.
    change (base ++ "_" ++ session) with (base ++ "_"%char :: session).
    rewrite rfind_last by exact H. apply take_app_length.
Qed.

Lemma X10_parse_filename_cuts_at_last_underscore_witness :
  PushToHuggingface.parse_filename "notes.wav" = Pathlib.stem "notes.wav"
  /\ PushToHuggingface.parse_filename "a_b_c.tar.gz" = "a_b".
Proof.
  split.
  - apply (proj1 (X10_parse_filename_cuts_at_last_underscore "notes.wav")).
    vm_compute. intuition discriminate.
  - apply (proj2 (X10_parse_filename_cuts_at_last_underscore "a_b_c.tar.gz")
             "a_b" "c.tar").
    + vm_compute. reflexivity.
    + vm_compute. intuition discriminate.
Defined.

(** ** The samples of a component *)
Section Components.

(** The loop over the audio files keeps, in order, the samples of the
    files that have a transcript. *)
Lemma collect_component_omap (dir : PushToHuggingface.directory)
    (max_per_component : option Z) :
  PushToHuggingface.collect_component dir max_per_component
  = omap (fun wav_file =>
            PushToHuggingface.collect_sample
              (PushToHuggingface.load_metadata
                 (PushToHuggingface.metadata_files dir))
              wav_file (Pathlib.with_suffix wav_file ".txt")
              (PushToHuggingface.txt_file dir
                 (Pathlib.with_suffix wav_file ".txt")))
      (capped max_per_component (PushToHuggingface.wav_files dir)).
Proof.
  unfold PushToHuggingface.collect_component.
  change (match max_per_component with
          | Some n => PushToHuggingface.slice_to n
                        (PushToHuggingface.wav_files dir)
          | None => PushToHuggingface.wav_files dir
          end)
    with (capped max_per_component (PushToHuggingface.wav_files dir)).
  generalize (capped max_per_component (PushToHuggingface.wav_files dir)).
  intros wavs.
  set (md := PushToHuggingface.load_metadata _).
  set (f := fun wav_file =>
              PushToHuggingface.collect_sample md wav_file
                (Pathlib.with_suffix wav_file ".txt")
                (PushToHuggingface.txt_file dir
                   (Pathlib.with_suffix wav_file ".txt"))).
  assert (Hgen : forall acc,
             fold_left
               (fun samples wav_file =>
                  match f wav_file with
                  | Some sample => samples ++ [sample]
                  | None => samples
                  end) wavs acc
             = acc ++ omap f wavs).
  { induction wavs as [|w wavs IH]; intros acc.
    - cbn. now rewrite app_nil_r.
    - cbn [fold_left]. rewrite IH.
      change (omap f (w :: wavs))
        with (match f w with
              | Some y => y :: omap f wavs
              | None => omap f wavs
              end).
      destruct (f w); [now rewrite <- app_assoc | reflexivity]. }
  exact (Hgen []).
Qed.

Lemma collect_sample_some (md : gmap str (gmap (option str) Csv.value))
    (wav_file txt_path : str) (txt : option file) :
  is_Some (PushToHuggingface.collect_sample md wav_file txt_path txt)
  <-> is_Some txt.
Proof.
  unfold PushToHuggingface.collect_sample. destruct txt; split;
    intros [x H]; try discriminate; eauto.
Qed.

Lemma length_omap_filter {A B : Type} (f : A -> option B) (l : list A) :
  length (omap f l)
  = length (List.filter (fun x => bool_decide (is_Some (f x))) l).
Proof.
  induction l as [|x l IH]; [reflexivity|]. cbn [List.filter].
  change (omap f (x :: l))
    with (match f x with Some y => y :: omap f l | None => omap f l end).
  destruct (f x) as [y|] eqn:Hf.
  - rewrite bool_decide_eq_true_2 by eauto. cbn [length]. now rewrite IH.
  - rewrite bool_decide_eq_false_2 by (intros [y Hy]; discriminate). exact IH.
Qed.

Lemma filter_ext_length {A : Type} (f g : A -> bool) (l : list A) :
  (forall x, f x = g x) ->
  length (List.filter f l) = length (List.filter g l).
Proof. intros H. now rewrite (List.filter_ext f g H). Qed.

Lemma length_slice_to {A : Type} (n : Z) (l : list A) :
  (0 <= n)%Z ->
  length (PushToHuggingface.slice_to n l) = Nat.min (Z.to_nat n) (length l).
Proof.
  intros Hn. unfold PushToHuggingface.slice_to.
  replace (0 <=? n)%Z with true by (symmetry; now apply Z.leb_le).
  apply length_take.
Qed.

End Components.

(** An entry of the result, computed from the component alone. *)
Lemma collected_lookup
    (fs : str -> option PushToHuggingface.directory)
    (max_per_component : option Z) (component : str) :
  PushToHuggingface.collect_dataset_samples fs max_per_component !! component
  = if bool_decide (component ∈ PushToHuggingface.components) then
      match fs component with
      | Some dir =>
          match PushToHuggingface.collect_component dir max_per_component with
          | [] => None
          | samples => Some samples
          end
      | None => None
      end
    else None.
Proof.
  unfold PushToHuggingface.collect_dataset_samples.
  generalize PushToHuggingface.components. intros comps.
  set (value := match fs component with
                | Some dir =>
                    match PushToHuggingface.collect_component dir
                            max_per_component with
                    | [] => None
                    | samples => Some samples
                    end
                | None => None
                end).
  set (step := fun (all_samples : gmap str (list (gmap (option str) Csv.value)))
                   (c : str) =>
                 match fs c with
                 | None => all_samples
                 | Some dir =>
                     match PushToHuggingface.collect_component dir
                             max_per_component with
                     | [] => all_samples
                     | samples => <[c := samples]> all_samples
                     end
                 end).
  assert (Hstep : forall m c,
             step m c !! component
             = if bool_decide (c = component)
               then match value with Some l => Some l | None => m !! component end
               else m !! component).
  { intros m c. subst step value. cbv beta.
    destruct (bool_decide_reflect (c = component)) as [->|Hne].
    - destruct (fs component) as [dir|]; [|reflexivity].
      destruct (PushToHuggingface.collect_component dir max_per_component);
        [reflexivity | apply lookup_insert_eq].
    - destruct (fs c) as [dir|]; [|reflexivity].
      destruct (PushToHuggingface.collect_component dir max_per_component);
        [reflexivity | now apply lookup_insert_ne]. }
  assert (Hgen : forall m,
             fold_left step comps m !! component
             = if bool_decide (component ∈ comps)
               then match value with Some l => Some l | None => m !! component end
               else m !! component).
  { induction comps as [|c comps IH]; intros m.
    - cbn [fold_left]. rewrite bool_decide_eq_false_2; [reflexivity|].
      apply not_elem_of_nil.
    - cbn [fold_left]. rewrite IH, Hstep.
      destruct (bool_decide_reflect (component ∈ comps)) as [Hin|Hin].
      + rewrite (bool_decide_eq_true_2 (component ∈ c :: comps))
          by (apply elem_of_cons; now right).
        destruct value; [reflexivity|].
        now destruct (bool_decide (c = component)).
      + destruct (bool_decide_reflect (c = component)) as [->|Hne].
        * now rewrite (bool_decide_eq_true_2 (component ∈ component :: comps))
            by (apply elem_of_cons; now left).
        * rewrite (bool_decide_eq_false_2 (component ∈ c :: comps));
            [reflexivity|].
          intros [H|H]%elem_of_cons; [congruence | contradiction]. }
  rewrite Hgen, lookup_empty. now destruct value.
Qed.

(** X11: [collect_dataset_samples] has an entry for a component exactly
    when it is one of the eight names, its directory exists and at least
    one sample was collected there; the entry is then the sample list of
    that directory.  A missing directory and a directory without samples
    both leave no entry. *)
Theorem X11_collected_components
    (fs : str -> option PushToHuggingface.directory)
    (max_per_component : option Z) (component : str) :
  PushToHuggingface.collect_dataset_samples fs max_per_component !! component
  = if bool_decide (component ∈ PushToHuggingface.components) then
      match fs component with
      | Some dir =>
          match PushToHuggingface.collect_component dir max_per_component with
          | [] => None
          | samples => Some samples
          end
      | None => None
      end
    else None.
Proof. apply collected_lookup. Qed.

(** X12: the samples of a component directory are as many as its audio
    files that have a transcript beside them; an audio file without
    transcript is passed over. *)
Theorem X12_one_sample_per_transcribed_audio
    (dir : PushToHuggingface.directory) (max_per_component : option Z) :
  length (PushToHuggingface.collect_component dir max_per_component)
  = length
      (List.filter
         (fun wav_file =>
            bool_decide
              (is_Some (PushToHuggingface.txt_file dir
                          (Pathlib.with_suffix wav_file ".txt"))))
         (capped max_per_component (PushToHuggingface.wav_files dir))).
Proof.
  rewrite collect_component_omap, length_omap_filter.
  apply filter_ext_length. intros w. apply bool_decide_ext.
  apply collect_sample_some.
Qed.

(** C1 (amended): the samples of a component are exactly those of the
    audio files that are processed and have a transcript beside them, one
    each.  The sample of such a file is built from that very file: its
    [audio] field is the path of the file, its [text] the text of the
    file's own transcript, the key used for the metadata lookup is the
    full filename stem of the file, session suffix included, and its
    [file_id] field holds that same stem (a metadata column named
    [audio], [text] or [file_id] overwrites the field).  For a file named
    [<base>_<session>.<ext>] that stem is [<base>_<session>];
    [parse_filename], which the pipeline does not call, is what gives
    [<base>].  For [ATL_se0_ag1_f_01_1.wav] the two are
    [ATL_se0_ag1_f_01_1] and [ATL_se0_ag1_f_01]. *)
Theorem C1_file_id_is_full_stem :
  (forall (fs : str -> option PushToHuggingface.directory)
          (max_per_component : option Z) (component : str)
          (samples : list (gmap (option str) Csv.value))
          (sample : gmap (option str) Csv.value),
      PushToHuggingface.collect_dataset_samples fs max_per_component
        !! component = Some samples ->
      In sample samples ->
      exists dir wav_file f,
        fs component = Some dir
        /\ In wav_file (PushToHuggingface.wav_files dir)
        /\ In wav_file
             (capped max_per_component (PushToHuggingface.wav_files dir))
        /\ PushToHuggingface.txt_file dir (Pathlib.with_suffix wav_file ".txt")
           = Some f
        /\ let row :=
             default ∅
               (PushToHuggingface.load_metadata
                  (PushToHuggingface.metadata_files dir)
                  !! Pathlib.stem wav_file) in
           sample
           = row ∪ bare_sample wav_file
                     (fst (PushToHuggingface.extract_text_from_txt
                             (Pathlib.with_suffix wav_file ".txt") f))
           /\ (forall k v, row !! k = Some v -> sample !! k = Some v)
           /\ (row !! Some ("file_id" : str) = None ->
               sample !! Some ("file_id" : str)
               = Some (Csv.VStr (Pathlib.stem wav_file)))
           /\ (row !! Some ("audio" : str) = None ->
               sample !! Some ("audio" : str) = Some (Csv.VStr wav_file)))
  /\ (forall (fs : str -> option PushToHuggingface.directory)
             (max_per_component : option Z) (component : str)
             (dir : PushToHuggingface.directory) (wav_file : str) (f : file),
        In component PushToHuggingface.components ->
        fs component = Some dir ->
        In wav_file
          (capped max_per_component (PushToHuggingface.wav_files dir)) ->
        PushToHuggingface.txt_file dir (Pathlib.with_suffix wav_file ".txt")
        = Some f ->
        exists samples,
          PushToHuggingface.collect_dataset_samples fs max_per_component
            !! component = Some samples
          /\ In (default ∅
                   (PushToHuggingface.load_metadata
                      (PushToHuggingface.metadata_files dir)
                      !! Pathlib.stem wav_file)
                 ∪ bare_sample wav_file
                     (fst (PushToHuggingface.extract_text_from_txt
                             (Pathlib.with_suffix wav_file ".txt") f)))
               samples)
  /\ (forall (dir : PushToHuggingface.directory)
             (max_per_component : option Z),
        PushToHuggingface.collect_component dir max_per_component
        = omap (fun wav_file =>
                  match PushToHuggingface.txt_file dir
                          (Pathlib.with_suffix wav_file ".txt") with
                  | Some f =>
                      Some (default ∅
                              (PushToHuggingface.load_metadata
                                 (PushToHuggingface.metadata_files dir)
                                 !! Pathlib.stem wav_file)
                            ∪ bare_sample wav_file
                                (fst (PushToHuggingface.extract_text_from_txt
                                        (Pathlib.with_suffix wav_file ".txt")
                                        f)))
                  | None => None
                  end)
            (capped max_per_component (PushToHuggingface.wav_files dir)))
  /\ (forall dir base session ext : str,
        ext <> [] ->
        ~ In "/"%char base -> ~ In "/"%char session -> ~ In "/"%char ext ->
        ~ In "_"%char session -> ~ In "."%char ext ->
        Pathlib.stem (dir ++ "/" ++ base ++ "_" ++ session ++ "." ++ ext)
        = base ++ "_" ++ session
        /\ PushToHuggingface.parse_filename
             (base ++ "_" ++ session ++ "." ++ ext) = base)
  /\ Pathlib.stem "ATL/ATL_se0_ag1_f_01_1.wav" = "ATL_se0_ag1_f_01_1"
  /\ PushToHuggingface.parse_filename "ATL_se0_ag1_f_01_1.wav"
     = "ATL_se0_ag1_f_01".
Proof.
  assert (Homap : forall (dir : PushToHuggingface.directory)
                         (max_per_component : option Z),
             PushToHuggingface.collect_component dir max_per_component
             = omap (fun wav_file =>
                       match PushToHuggingface.txt_file dir
                               (Pathlib.with_suffix wav_file ".txt") with
                       | Some f =>
                           Some (default ∅
                                   (PushToHuggingface.load_metadata
                                      (PushToHuggingface.metadata_files dir)
                                      !! Pathlib.stem wav_file)
                                 ∪ bare_sample wav_file
                                     (fst (PushToHuggingface.extract_text_from_txt
                                             (Pathlib.with_suffix wav_file ".txt")
                                             f)))
                       | None => None
                       end)
                 (capped max_per_component (PushToHuggingface.wav_files dir))).
  { intros dir max_per_component. rewrite collect_component_omap.
    reflexivity. }
  refine (conj _ (conj _ (conj Homap (conj _ (conj _ _)))));
    [| | |reflexivity|reflexivity].
  - intros fs max_per_component component samples sample Hlookup Hin.
    apply collect_dataset_samples_lookup in Hlookup as (dir & Hfs & ->).
    rewrite collect_component_omap in Hin.
    apply list_elem_of_In, list_elem_of_omap in Hin as (w & Hw & Hs).
    pose proof (collect_sample_file_id _ _ _ _ _ Hs) as [Hrow Hid].
    unfold PushToHuggingface.collect_sample in Hs.
    destruct (PushToHuggingface.txt_file dir _) as [f|] eqn:Hf; [|discriminate].
    injection Hs as Hs. exists dir, w, f.
    apply list_elem_of_In in Hw.
    refine (conj Hfs (conj _ (conj Hw (conj Hf _)))).
    + unfold capped in Hw.
      destruct max_per_component; [now apply in_slice_to in Hw | exact Hw].
    + cbv zeta. refine (conj _ (conj Hrow (conj Hid _))).
      * now rewrite <- Hs.
      * intros Hnone. rewrite <- Hs. rewrite lookup_union_r by exact Hnone.
        rewrite lookup_insert_ne by discriminate.
        rewrite lookup_insert_ne by discriminate.
        apply lookup_singleton_eq.
  - intros fs max_per_component component dir wav_file f Hc Hfs Hw Hf.
    assert (Hin : In (default ∅
                        (PushToHuggingface.load_metadata
                           (PushToHuggingface.metadata_files dir)
                           !! Pathlib.stem wav_file)
                      ∪ bare_sample wav_file
                          (fst (PushToHuggingface.extract_text_from_txt
                                  (Pathlib.with_suffix wav_file ".txt") f)))
                   (PushToHuggingface.collect_component dir max_per_component)).
    { rewrite Homap. apply list_elem_of_In, list_elem_of_omap.
      exists wav_file. split; [now apply list_elem_of_In|]. now rewrite Hf. }
    exists (PushToHuggingface.collect_component dir max_per_component).
    split; [|exact Hin].
    rewrite collected_lookup, Hfs.
    rewrite bool_decide_eq_true_2 by now apply list_elem_of_In.
    destruct (PushToHuggingface.collect_component dir max_per_component);
      [destruct Hin | reflexivity].
  - intros dir base session ext He Hb Hs He1 Hs2 He2. split.
    + change (dir ++ "/" ++ base ++ "_" ++ session ++ "." ++ ext)
        with (dir ++ "/"%char :: base ++ "_"%char :: session
                ++ "."%char :: ext).
      replace (base ++ "_"%char :: session ++ "."%char :: ext)
        with ((base ++ "_"%char :: session) ++ "."%char :: ext)
        by now rewrite <- app_assoc.
      apply convention_stem; [now destruct base | exact He | | exact He1
                              | exact He2].
      intros H. apply in_app_or in H as [H|[H|H]];
        [now apply Hb | discriminate | now apply Hs].
    + now apply parse_filename_convention.
Qed.

Lemma C1_file_id_is_full_stem_witness :
  (exists dir wav_file f,
      example_fs "ATL" = Some dir
      /\ In wav_file (PushToHuggingface.wav_files dir)
      /\ In wav_file (capped None (PushToHuggingface.wav_files dir))
      /\ PushToHuggingface.txt_file dir (Pathlib.with_suffix wav_file ".txt")
         = Some f
      /\ let row :=
           default ∅
             (PushToHuggingface.load_metadata
                (PushToHuggingface.metadata_files dir)
                !! Pathlib.stem wav_file) in
         example_sample
         = row ∪ bare_sample wav_file
                   (fst (PushToHuggingface.extract_text_from_txt
                           (Pathlib.with_suffix wav_file ".txt") f))
         /\ (forall k v, row !! k = Some v -> example_sample !! k = Some v)
         /\ (row !! Some ("file_id" : str) = None ->
             example_sample !! Some ("file_id" : str)
             = Some (Csv.VStr (Pathlib.stem wav_file)))
         /\ (row !! Some ("audio" : str) = None ->
             example_sample !! Some ("audio" : str)
             = Some (Csv.VStr wav_file)))
  /\ (exists samples,
         PushToHuggingface.collect_dataset_samples
           (fun component =>
              if bool_decide (component = "ATL")
              then Some example_dir_without_metadata else None)
           (Some 1%Z) !! ("ATL" : str) = Some samples
         /\ In (default ∅
                  (PushToHuggingface.load_metadata
                     (PushToHuggingface.metadata_files
                        example_dir_without_metadata)
                     !! Pathlib.stem "ATL/ATL_se0_ag1_f_01_1.wav")
                ∪ bare_sample "ATL/ATL_se0_ag1_f_01_1.wav"
                    (fst (PushToHuggingface.extract_text_from_txt
                            (Pathlib.with_suffix
                               "ATL/ATL_se0_ag1_f_01_1.wav" ".txt")
                            example_transcript)))
              samples)
  /\ Pathlib.stem ("DCB" ++ "/" ++ "DCB_se1_ag2_m_03" ++ "_" ++ "2"
                     ++ "." ++ "wav")
     = "DCB_se1_ag2_m_03" ++ "_" ++ "2"
  /\ PushToHuggingface.parse_filename
       ("DCB_se1_ag2_m_03" ++ "_" ++ "2" ++ "." ++ "wav")
     = "DCB_se1_ag2_m_03".
Proof.
  refine (conj _ (conj _ _)).
  - apply (proj1 C1_file_id_is_full_stem example_fs None "ATL"
             [example_sample] example_sample).
    + now rewrite example_fs_collected, lookup_singleton_eq.
    + now left.
  - apply (proj1 (proj2 C1_file_id_is_full_stem)
             (fun component =>
                if bool_decide (component = "ATL")
                then Some example_dir_without_metadata else None)
             (Some 1%Z) "ATL" example_dir_without_metadata
             "ATL/ATL_se0_ag1_f_01_1.wav" example_transcript).
    + now left.
    + reflexivity.
    + now left.
    + reflexivity.
  - apply (proj1 (proj2 (proj2 (proj2 C1_file_id_is_full_stem)))
             "DCB" "DCB_se1_ag2_m_03" "2" "wav").
    + discriminate.
    + vm_compute. intuition discriminate.
    + vm_compute. intuition discriminate.
    + vm_compute. intuition discriminate.
    + vm_compute. intuition discriminate.
    + vm_compute. intuition discriminate.
Defined.

(** X13: with a cap [n >= 0], [collect_dataset_samples] processes the
    first [n] audio files of the enumeration of a component and no other:
    the samples are those of the directory that holds only these first
    [n] files, processed without a cap.  So a component gives at most [n]
    samples, and never more than it has audio files. *)
Theorem X13_cap_bounds_samples
    (dir : PushToHuggingface.directory) (n : Z) :
  (0 <= n)%Z ->
  PushToHuggingface.collect_component dir (Some n)
  = PushToHuggingface.collect_component
      (PushToHuggingface.Directory
         (PushToHuggingface.metadata_files dir)
         (take (Z.to_nat n) (PushToHuggingface.wav_files dir))
         (PushToHuggingface.txt_file dir))
      None
  /\ (length (PushToHuggingface.collect_component dir (Some n))
      <= Nat.min (Z.to_nat n) (length (PushToHuggingface.wav_files dir)))%nat
  /\ capped (Some n) (PushToHuggingface.wav_files dir)
     = take (Z.to_nat n) (PushToHuggingface.wav_files dir).
Proof.
  intros Hn.
  assert (Hcap : capped (Some n) (PushToHuggingface.wav_files dir)
                 = take (Z.to_nat n) (PushToHuggingface.wav_files dir)).
  { unfold capped, PushToHuggingface.slice_to.
    now replace (0 <=? n)%Z with true by (symmetry; now apply Z.leb_le). }
  refine (conj _ (conj _ Hcap)).
  - unfold PushToHuggingface.collect_component.
    cbn [PushToHuggingface.metadata_files PushToHuggingface.wav_files
         PushToHuggingface.txt_file].
    unfold PushToHuggingface.slice_to.
    now replace (0 <=? n)%Z with true by (symmetry; now apply Z.leb_le).
  - rewrite collect_component_omap, length_omap_filter.
    etrans; [apply List.filter_length_le|].
    unfold capped. now rewrite length_slice_to.
Qed.

Lemma X13_cap_bounds_samples_witness :
  PushToHuggingface.collect_component
    (PushToHuggingface.Directory []
       [ "ATL/a_1.wav" : str; "ATL/b_1.wav" : str; "ATL/c_1.wav" : str ]
       (fun _ => Some example_transcript))
    (Some 2%Z)
  = PushToHuggingface.collect_component
      (PushToHuggingface.Directory []
         [ "ATL/a_1.wav" : str; "ATL/b_1.wav" : str ]
         (fun _ => Some example_transcript))
      None
  /\ (length (PushToHuggingface.collect_component
                (PushToHuggingface.Directory []
                   [ "ATL/a_1.wav" : str; "ATL/b_1.wav" : str;
                     "ATL/c_1.wav" : str ]
                   (fun _ => Some example_transcript))
                (Some 2%Z))
      <= Nat.min (Z.to_nat 2)
           (length [ "ATL/a_1.wav" : str; "ATL/b_1.wav" : str;
                     "ATL/c_1.wav" : str ]))%nat.
Proof.
  pose proof (X13_cap_bounds_samples
                (PushToHuggingface.Directory []
                   [ "ATL/a_1.wav" : str; "ATL/b_1.wav" : str;
                     "ATL/c_1.wav" : str ]
                   (fun _ => Some example_transcript)) 2%Z
                ltac:(lia)) as (H1 & H2 & _).
  split; [exact H1 | exact H2].
Defined.

(** X14: when no metadata was loaded for a component (no metadata file,
    a failed read, or no row with an identifier), each of its samples
    holds exactly the three keys [audio], [text] and [file_id]: the path
    of an audio file of the directory, the text of its transcript and its
    stem. *)
Theorem X14_samples_without_metadata
    (dir : PushToHuggingface.directory) (max_per_component : option Z)
    (sample : gmap (option str) Csv.value) :
  PushToHuggingface.load_metadata (PushToHuggingface.metadata_files dir) = ∅ ->
  In sample (PushToHuggingface.collect_component dir max_per_component) ->
  exists wav_file f,
    In wav_file (PushToHuggingface.wav_files dir)
    /\ PushToHuggingface.txt_file dir (Pathlib.with_suffix wav_file ".txt")
       = Some f
    /\ sample
       = bare_sample wav_file
           (fst (PushToHuggingface.extract_text_from_txt
                   (Pathlib.with_suffix wav_file ".txt") f)).
Proof.
  intros Hmd Hin. rewrite collect_component_omap, Hmd in Hin.
  apply list_elem_of_In, list_elem_of_omap in Hin as (w & Hw & Hs).
  unfold PushToHuggingface.collect_sample in Hs.
  destruct (PushToHuggingface.txt_file dir _) as [f|] eqn:Hf; [|discriminate].
  injection Hs as <-. exists w, f. split; [|split; [exact Hf|]].
  - apply list_elem_of_In in Hw. unfold capped in Hw.
    destruct max_per_component; [now apply in_slice_to in Hw | exact Hw].
  - rewrite lookup_empty. cbn [default]. now rewrite (left_id ∅ (∪)).
Qed.

Lemma X14_samples_without_metadata_witness :
  exists wav_file f,
    In wav_file (PushToHuggingface.wav_files example_dir_without_metadata)
    /\ PushToHuggingface.txt_file example_dir_without_metadata
         (Pathlib.with_suffix wav_file ".txt") = Some f
    /\ example_sample
       = bare_sample wav_file
           (fst (PushToHuggingface.extract_text_from_txt
                   (Pathlib.with_suffix wav_file ".txt") f)).
Proof.
  apply (X14_samples_without_metadata example_dir_without_metadata
           None example_sample).
  - reflexivity.
  - left. vm_cast_no_check (eq_refl example_sample).
Defined.

(** ** Schemas *)
Section Schemas.

Lemma all_keys_fold (samples : list (gmap (option str) Csv.value))
    (k : option str) :
  forall acc : gset (option str),
    k ∈ fold_left (fun keys sample => keys ∪ dom sample) samples acc
    <-> k ∈ acc \/ exists sample, In sample samples /\ is_Some (sample !! k).
Proof.
  induction samples as [|s0 samples IH]; intros acc.
  - cbn. split; [now left | intros [H|(s & [] & _)]; exact H].
  - cbn [fold_left]. rewrite IH, elem_of_union, elem_of_dom. split.
    + intros [[H|H]|(s & Hs & Hk)].
      * now left.
      * right. exists s0. split; [now left | exact H].
      * right. exists s. split; [now right | exact Hk].
    + intros [H|(s & [<-|Hs] & Hk)].
      * left. now left.
      * left. now right.
      * right. now exists s.
Qed.

Lemma all_keys_elem (samples : list (gmap (option str) Csv.value))
    (k : option str) :
  k ∈ PushToHuggingface.all_keys samples
  <-> exists sample, In sample samples /\ is_Some (sample !! k).
Proof.
  unfold PushToHuggingface.all_keys. rewrite all_keys_fold. split.
  - intros [H|H]; [now apply not_elem_of_empty in H | exact H].
  - intros H. now right.
Qed.

(** The schema, key by key: the three fixed columns keep their type, any
    other key of a sample is a string column. *)
Lemma component_features_lookup
    (samples : list (gmap (option str) Csv.value)) (k : option str) :
  PushToHuggingface.component_features samples !! k
  = match PushToHuggingface.base_features !! k with
    | Some f => Some f
    | None =>
        if bool_decide (k ∈ PushToHuggingface.all_keys samples)
        then Some PushToHuggingface.StringFeature else None
    end.
Proof.
  unfold PushToHuggingface.component_features.
  generalize (PushToHuggingface.all_keys samples). intros keys.
  assert (H : (forall f, PushToHuggingface.base_features !! k = Some f ->
                 set_fold
                   (fun key (features : gmap (option str)
                                          PushToHuggingface.feature) =>
                      match features !! key with
                      | Some _ => features
                      | None => <[key := PushToHuggingface.StringFeature]>
                                  features
                      end)
                   PushToHuggingface.base_features keys !! k = Some f)
              /\ (PushToHuggingface.base_features !! k = None ->
                  (k ∈ keys ->
                   set_fold
                     (fun key (features : gmap (option str)
                                            PushToHuggingface.feature) =>
                        match features !! key with
                        | Some _ => features
                        | None => <[key := PushToHuggingface.StringFeature]>
                                    features
                        end)
                     PushToHuggingface.base_features keys !! k
                   = Some PushToHuggingface.StringFeature)
                  /\ (k ∉ keys ->
                      set_fold
                        (fun key (features : gmap (option str)
                                               PushToHuggingface.feature) =>
                           match features !! key with
                           | Some _ => features
                           | None =>
                               <[key := PushToHuggingface.StringFeature]>
                                 features
                           end)
                        PushToHuggingface.base_features keys !! k = None))).
  { apply (set_fold_ind_L
             (fun (features : gmap (option str) PushToHuggingface.feature)
                  (X : gset (option str)) =>
                (forall f, PushToHuggingface.base_features !! k = Some f ->
                           features !! k = Some f)
                /\ (PushToHuggingface.base_features !! k = None ->
                    (k ∈ X ->
                     features !! k = Some PushToHuggingface.StringFeature)
                    /\ (k ∉ X -> features !! k = None)))).
    - split; [tauto|]. intros Hb. split; [|now intros _].
      intros Hin. now apply not_elem_of_empty in Hin.
    - intros x X r Hx [Hr1 Hr2].
      destruct (decide (x = k)) as [->|Hne].
      + split.
        * intros f Hf. now rewrite (Hr1 f Hf), (Hr1 f Hf).
        * intros Hb. destruct (Hr2 Hb) as [_ Hr3]. rewrite (Hr3 Hx).
          split; [intros _; apply lookup_insert_eq | set_solver].
      + assert (Hl : match r !! x with
                     | Some _ => r
                     | None => <[x := PushToHuggingface.StringFeature]> r
                     end !! k = r !! k).
        { destruct (r !! x); [reflexivity | now apply lookup_insert_ne]. }
        rewrite Hl. split; [exact Hr1|]. intros Hb.
        destruct (Hr2 Hb) as [Hr3 Hr4]. split.
        * intros Hin. apply Hr3. set_solver.
        * intros Hin. apply Hr4. set_solver. }
  destruct H as [H1 H2].
  destruct (PushToHuggingface.base_features !! k) as [f|] eqn:Hb.
  - now apply H1.
  - destruct (H2 eq_refl) as [H3 H4].
    destruct (bool_decide_reflect (k ∈ keys)); [now apply H3 | now apply H4].
Qed.

End Schemas.

(** X15: in the schema [create_datasets] builds for a component, [audio]
    is the audio column; every key of every sample has a column; every
    column other than [audio] is a string column; and a column is one of
    [audio], [text], [file_id] or a key of some sample. *)
Theorem X15_schema_covers_all_sample_keys
    (samples : list (gmap (option str) Csv.value)) :
  PushToHuggingface.component_features samples !! Some ("audio" : str)
  = Some PushToHuggingface.AudioFeature
  /\ (forall sample k,
        In sample samples -> is_Some (sample !! k) ->
        is_Some (PushToHuggingface.component_features samples !! k))
  /\ (forall k f,
        PushToHuggingface.component_features samples !! k = Some f ->
        k <> Some ("audio" : str) ->
        f = PushToHuggingface.StringFeature)
  /\ (forall k,
        is_Some (PushToHuggingface.component_features samples !! k) ->
        k = Some ("audio" : str) \/ k = Some ("text" : str)
        \/ k = Some ("file_id" : str)
        \/ exists sample, In sample samples /\ is_Some (sample !! k)).
Proof.
  refine (conj _ (conj _ (conj _ _))).
  - now rewrite component_features_lookup.
  - intros sample k Hin Hk. rewrite component_features_lookup.
    destruct (PushToHuggingface.base_features !! k); [eauto|].
    rewrite bool_decide_eq_true_2; [eauto|].
    apply all_keys_elem. now exists sample.
  - intros k f. rewrite component_features_lookup.
    unfold PushToHuggingface.base_features.
    destruct (decide (k = Some ("file_id" : str))) as [->|H1].
    { rewrite lookup_insert_eq. now intros [= <-]. }
    rewrite lookup_insert_ne by congruence.
    destruct (decide (k = Some ("text" : str))) as [->|H2].
    { rewrite lookup_insert_eq. now intros [= <-]. }
    rewrite lookup_insert_ne by congruence.
    intros H Ha. rewrite lookup_singleton_ne in H by congruence.
    destruct (bool_decide _); congruence.
  - intros k. rewrite component_features_lookup.
    unfold PushToHuggingface.base_features.
    destruct (decide (k = Some ("file_id" : str))) as [->|H1]; [tauto|].
    rewrite lookup_insert_ne by congruence.
    destruct (decide (k = Some ("text" : str))) as [->|H2]; [tauto|].
    rewrite lookup_insert_ne by congruence.
    destruct (decide (k = Some ("audio" : str))) as [->|H3]; [tauto|].
    rewrite lookup_singleton_ne by congruence.
    destruct (bool_decide_reflect (k ∈ PushToHuggingface.all_keys samples))
      as [Hin|Hin]; [|intros [x Hx]; discriminate].
    intros _. right. right. right. now apply all_keys_elem.
Qed.

Lemma X15_schema_covers_all_sample_keys_witness :
  is_Some (PushToHuggingface.component_features [example_row]
             !! Some ("Age" : str))
  /\ (PushToHuggingface.component_features [example_row]
        !! Some ("Age" : str) = Some PushToHuggingface.StringFeature ->
      PushToHuggingface.StringFeature = PushToHuggingface.StringFeature).
Proof.
  split.
  - apply (proj1 (proj2 (X15_schema_covers_all_sample_keys [example_row]))
             example_row (Some ("Age" : str))).
    + now left.
    + vm_compute. eauto.
  - intros H.
    apply (proj1 (proj2 (proj2
                    (X15_schema_covers_all_sample_keys [example_row])))
             (Some ("Age" : str)) _ H).
    discriminate.
Defined.

(** ** Datasets *)
Section DatasetsLoop.
Variable dataset : Type.
Variable error : Type.
Variable from_list :
  list (gmap (option str) Csv.value)
  -> gmap (option str) PushToHuggingface.feature -> dataset + error.

(** The loop raises as soon as the library call raises on one item. *)
Lemma create_datasets_loop_raises
    (all_items : list (str * list (gmap (option str) Csv.value)))
    (c : str) (samples : list (gmap (option str) Csv.value)) (e : error) :
  In (c, samples) all_items -> samples <> [] ->
  from_list samples (PushToHuggingface.component_features samples) = inr e ->
  forall acc, exists e',
    PushToHuggingface.create_datasets_loop dataset error from_list
      all_items acc = inr e'.
Proof.
  intros Hin Hne He.
  induction all_items as [|[c0 s0] rest IH]; [destruct Hin|]. intros acc.
  cbn [PushToHuggingface.create_datasets_loop].
  destruct Hin as [Heq|Hin].
  - injection Heq as -> ->. destruct samples; [congruence|].
    rewrite He. eauto.
  - destruct s0 as [|x s0]; [now apply IH|].
    destruct (from_list (x :: s0) _) as [ds|e0]; [now apply IH | eauto].
Qed.

(** When the library call returns on every item, the loop returns, with
    one dataset for each item that has samples. *)
Lemma create_datasets_loop_returns
    (all_items : list (str * list (gmap (option str) Csv.value))) :
  NoDup (map fst all_items) ->
  (forall c samples,
      In (c, samples) all_items -> samples <> [] ->
      exists ds,
        from_list samples (PushToHuggingface.component_features samples)
        = inl ds) ->
  forall acc, exists datasets,
    PushToHuggingface.create_datasets_loop dataset error from_list
      all_items acc = inl datasets
    /\ (forall c samples,
          In (c, samples) all_items -> samples <> [] ->
          exists ds,
            from_list samples (PushToHuggingface.component_features samples)
            = inl ds
            /\ datasets !! c = Some ds)
    /\ (forall c,
          (forall samples, In (c, samples) all_items -> samples = []) ->
          datasets !! c = acc !! c).
Proof.
  induction all_items as [|[c0 s0] rest IH]; intros Hnd Hok acc.
  - exists acc. cbn. split; [reflexivity|]. split; [intros ? ? []|reflexivity].
  - cbn [map fst] in Hnd. apply NoDup_cons in Hnd as [Hc0 Hnd].
    assert (Hfresh : forall samples, In (c0, samples) rest -> samples = []).
    { intros samples Hin. exfalso. apply Hc0. apply list_elem_of_In.
      apply (List.in_map fst) in Hin. exact Hin. }
    assert (Hok' : forall c samples,
               In (c, samples) rest -> samples <> [] ->
               exists ds,
                 from_list samples
                   (PushToHuggingface.component_features samples) = inl ds).
    { intros c samples Hin. apply (Hok c). now right. }
    cbn [PushToHuggingface.create_datasets_loop].
    destruct s0 as [|x s0].
    + destruct (IH Hnd Hok' acc) as (datasets & Hrun & Hsome & Hnone).
      exists datasets. split; [exact Hrun|]. split.
      * intros c samples [Heq|Hin] Hne; [congruence | now apply Hsome].
      * intros c Hc. apply Hnone. intros samples Hin. apply Hc. now right.
    + destruct (Hok c0 (x :: s0) (or_introl eq_refl) ltac:(discriminate))
        as [ds0 Hds0].
      rewrite Hds0.
      destruct (IH Hnd Hok' (<[c0 := ds0]> acc))
        as (datasets & Hrun & Hsome & Hnone).
      exists datasets. split; [exact Hrun|]. split.
      * intros c samples [Heq|Hin] Hne; [|now apply Hsome].
        injection Heq as <- <-. exists ds0. split; [exact Hds0|].
        rewrite (Hnone c0 Hfresh). apply lookup_insert_eq.
      * intros c Hc.
        assert (Hcc : c <> c0).
        { intros ->. specialize (Hc (x :: s0) (or_introl eq_refl)).
          discriminate Hc. }
        rewrite Hnone by (intros samples Hin; apply Hc; now right).
        now apply lookup_insert_ne.
Qed.

End DatasetsLoop.

(** The items of a dictionary of samples: one for each of its keys among
    the component names. *)
Lemma in_items (all_samples : gmap str (list (gmap (option str) Csv.value)))
    (c : str) (samples : list (gmap (option str) Csv.value)) :
  In (c, samples) (PushToHuggingface.items all_samples)
  <-> c ∈ PushToHuggingface.components /\ all_samples !! c = Some samples.
Proof.
  unfold PushToHuggingface.items.
  rewrite <- list_elem_of_In, list_elem_of_omap. split.
  - intros (x & Hx & Hf). destruct (all_samples !! x) as [l|] eqn:Hl;
      [|discriminate]. cbn in Hf. injection Hf as -> ->. now split.
  - intros [Hc Hl]. exists c. split; [exact Hc|]. now rewrite Hl.
Qed.

Lemma NoDup_items (all_samples : gmap str (list (gmap (option str) Csv.value))) :
  NoDup (map fst (PushToHuggingface.items all_samples)).
Proof.
  unfold PushToHuggingface.items.
  assert (Hnd : NoDup PushToHuggingface.components).
  { apply (bool_decide_unpack _). vm_compute. exact I. }
  revert Hnd. generalize PushToHuggingface.components. intros comps.
  set (F := fun component : str =>
              (fun samples : list (gmap (option str) Csv.value) =>
                 (component, samples)) <$> all_samples !! component).
  induction comps as [|c comps IH]; intros Hnd; [constructor|].
  apply NoDup_cons in Hnd as [Hc Hnd].
  change (omap F (c :: comps))
    with (match F c with Some y => y :: omap F comps | None => omap F comps end).
  destruct (F c) as [[c' l]|] eqn:HFc; [|now apply IH].
  assert (c' = c) as ->.
  { subst F. cbv beta in HFc. destruct (all_samples !! c); [|discriminate].
    cbn in HFc. now injection HFc as -> _. }
  cbn [map fst]. apply NoDup_cons. split; [|now apply IH].
  intros Hin. apply Hc. apply list_elem_of_In, List.in_map_iff in Hin
    as ([c' l'] & Heq & Hin). cbn in Heq. subst c'.
  apply list_elem_of_In, list_elem_of_omap in Hin as (x & Hx & Hf).
  subst F. cbv beta in Hf. destruct (all_samples !! x); [|discriminate].
  cbn in Hf. injection Hf as -> _. exact Hx.
Qed.

(** An entry of the collected samples is a component name with at least
    one sample. *)
Lemma collected_entry
    (fs : str -> option PushToHuggingface.directory)
    (max_per_component : option Z) (c : str)
    (samples : list (gmap (option str) Csv.value)) :
  PushToHuggingface.collect_dataset_samples fs max_per_component !! c
  = Some samples ->
  c ∈ PushToHuggingface.components /\ samples <> [].
Proof.
  rewrite collected_lookup.
  destruct (bool_decide_reflect (c ∈ PushToHuggingface.components));
    [|discriminate].
  destruct (fs c) as [dir|]; [|discriminate].
  destruct (PushToHuggingface.collect_component dir max_per_component);
    [discriminate|].
  intros [= <-]. split; [assumption | discriminate].
Qed.

(** X16: [create_datasets] applied to what [collect_dataset_samples]
    returns.  When the library call [Dataset.from_list] returns a dataset
    for every collected component, [create_datasets] returns one dataset
    per collected component and none is dropped: the one the library
    builds from the component's samples and the schema made from them.
    When the library call raises for some collected component,
    [create_datasets] raises too and returns no dataset at all. *)
Theorem X16_one_dataset_per_collected_component
    (dataset error : Type)
    (from_list : list (gmap (option str) Csv.value)
                 -> gmap (option str) PushToHuggingface.feature
                 -> dataset + error)
    (fs : str -> option PushToHuggingface.directory)
    (max_per_component : option Z) :
  ((forall c samples,
       PushToHuggingface.collect_dataset_samples fs max_per_component !! c
       = Some samples ->
       exists ds,
         from_list samples (PushToHuggingface.component_features samples)
         = inl ds) ->
   exists datasets,
     PushToHuggingface.create_datasets dataset error from_list
       (PushToHuggingface.items
          (PushToHuggingface.collect_dataset_samples fs max_per_component))
     = inl datasets
     /\ forall c,
         (is_Some (datasets !! c)
          <-> is_Some (PushToHuggingface.collect_dataset_samples fs
                         max_per_component !! c))
         /\ forall samples,
             PushToHuggingface.collect_dataset_samples fs max_per_component
               !! c = Some samples ->
             exists ds,
               from_list samples
                 (PushToHuggingface.component_features samples) = inl ds
               /\ datasets !! c = Some ds)
  /\ (forall c samples e,
         PushToHuggingface.collect_dataset_samples fs max_per_component !! c
         = Some samples ->
         from_list samples (PushToHuggingface.component_features samples)
         = inr e ->
         exists e',
           PushToHuggingface.create_datasets dataset error from_list
             (PushToHuggingface.items
                (PushToHuggingface.collect_dataset_samples fs
                   max_per_component))
           = inr e').
Proof.
  split.
  - intros Hok.
    destruct (create_datasets_loop_returns dataset error from_list
                (PushToHuggingface.items
                   (PushToHuggingface.collect_dataset_samples fs
                      max_per_component))
                (NoDup_items _)
                ltac:(intros c samples [_ Hl]%in_items _; now apply (Hok c))
                ∅)
      as (datasets & Hrun & Hsome & Hnone).
    exists datasets. split; [exact Hrun|]. intros c.
    assert (Hfound : forall samples,
               PushToHuggingface.collect_dataset_samples fs max_per_component
                 !! c = Some samples ->
               exists ds,
                 from_list samples
                   (PushToHuggingface.component_features samples) = inl ds
                 /\ datasets !! c = Some ds).
    { intros samples Hl.
      destruct (collected_entry _ _ _ _ Hl) as [Hc Hne].
      apply Hsome; [|exact Hne]. apply in_items. now split. }
    split; [|exact Hfound]. split.
    + intros Hds.
      destruct (PushToHuggingface.collect_dataset_samples fs max_per_component
                  !! c) as [samples|] eqn:Hl; [eauto|].
      rewrite Hnone, lookup_empty in Hds;
        [destruct Hds as [ds Hds]; discriminate Hds|].
      intros samples [_ Hs]%in_items. congruence.
    + intros [samples Hl]. destruct (Hfound samples Hl) as (ds & _ & Hds).
      eauto.
  - intros c samples e Hl He.
    destruct (collected_entry _ _ _ _ Hl) as [Hc Hne].
    apply (create_datasets_loop_raises dataset error from_list _ c samples e);
      [|exact Hne|exact He].
    apply in_items. now split.
Qed.

Lemma X16_one_dataset_per_collected_component_witness :
  (exists datasets,
      PushToHuggingface.create_datasets
        (list (gmap (option str) Csv.value)
         * gmap (option str) PushToHuggingface.feature) unit
        (fun samples features => inl (samples, features))
        (PushToHuggingface.items
           (PushToHuggingface.collect_dataset_samples example_fs None))
      = inl datasets
      /\ forall c,
          (is_Some (datasets !! c)
           <-> is_Some (PushToHuggingface.collect_dataset_samples example_fs
                          None !! c))
          /\ forall samples,
              PushToHuggingface.collect_dataset_samples example_fs None
                !! c = Some samples ->
              exists ds,
                inl (samples, PushToHuggingface.component_features samples)
                = @inl _ unit ds
                /\ datasets !! c = Some ds)
  /\ (exists e',
         PushToHuggingface.create_datasets
           (list (gmap (option str) Csv.value)) unit
           (fun _ _ => inr tt)
           (PushToHuggingface.items
              (PushToHuggingface.collect_dataset_samples example_fs None))
         = inr e').
Proof.
  split.
  - apply (proj1 (X16_one_dataset_per_collected_component
                    (list (gmap (option str) Csv.value)
                     * gmap (option str) PushToHuggingface.feature) unit
                    (fun samples features => inl (samples, features))
                    example_fs None)).
    intros c samples _. eauto.
  - apply (proj2 (X16_one_dataset_per_collected_component
                    (list (gmap (option str) Csv.value)) unit
                    (fun _ _ => inr tt) example_fs None)
             "ATL" [example_sample] tt).
    + now rewrite example_fs_collected, lookup_singleton_eq.
    + reflexivity.
Defined.

(** ** Corpus statistics *)
Section Statistics.
Variable float_t : Type.
Variable of_Q : Q -> float_t.
Variable fadd : float_t -> float_t -> float_t.
Variable fdiv : float_t -> float_t -> float_t.

Lemma count_all_acc (files : list (str * file)) :
  forall acc : nat * stdout,
    fst (fold_left
           (fun acc pf =>
              let r := VerifyStats.count_words_from_txt (fst pf) (snd pf) in
              (fst acc + fst r, snd acc ++ snd r))
           files acc)
    = fst acc
      + list_sum (map (fun pf => fst (VerifyStats.count_words_from_txt
                                        (fst pf) (snd pf))) files).
Proof.
  induction files as [|pf files IH]; intros [n out].
  - cbn. lia.
  - cbn [fold_left map]. rewrite IH. cbn [fst].
    change (list_sum (?a :: ?l)) with (a + list_sum l). lia.
Qed.

(** The word total of a list of transcripts is the sum of their counts. *)
Lemma count_all_sum (files : list (str * file)) :
  fst (VerifyStats.count_all files)
  = list_sum (map (fun pf => fst (VerifyStats.count_words_from_txt
                                    (fst pf) (snd pf))) files).
Proof. unfold VerifyStats.count_all. now rewrite count_all_acc. Qed.

Lemma list_sum_perm (l1 l2 : list nat) :
  Permutation l1 l2 -> list_sum l1 = list_sum l2.
Proof.
  induction 1 as [|x l1 l2 _ IH|x y l|l1 l2 l3 _ IH1 _ IH2];
    unfold list_sum in *; cbn [fold_right] in *; lia.
Qed.

Lemma analyze_lookup (fs : str -> option VerifyStats.listing) (component : str) :
  fst (VerifyStats.analyze_corpus float_t of_Q fadd fdiv fs) !! component
  = if bool_decide (component ∈ VerifyStats.components) then
      (fun dir => fst (VerifyStats.analyze_component float_t of_Q fadd fdiv dir))
        <$> fs component
    else None.
Proof.
  unfold VerifyStats.analyze_corpus.
  generalize VerifyStats.components. intros comps.
  assert (Hstep : forall acc c,
             fst (VerifyStats.analyze_step float_t of_Q fadd fdiv fs acc c)
               !! component
             = if bool_decide (c = component)
               then match fs component with
                    | Some dir =>
                        Some (fst (VerifyStats.analyze_component
                                     float_t of_Q fadd fdiv dir))
                    | None => fst acc !! component
                    end
               else fst acc !! component).
  { intros acc c. unfold VerifyStats.analyze_step.
    destruct (bool_decide_reflect (c = component)) as [->|Hne].
    - destruct (fs component); [apply lookup_insert_eq | reflexivity].
    - destruct (fs c); [now apply lookup_insert_ne | reflexivity]. }
  assert (Hgen : forall acc,
             fst (fold_left
                    (VerifyStats.analyze_step float_t of_Q fadd fdiv fs)
                    comps acc) !! component
             = if bool_decide (component ∈ comps)
               then match fs component with
                    | Some dir =>
                        Some (fst (VerifyStats.analyze_component
                                     float_t of_Q fadd fdiv dir))
                    | None => fst acc !! component
                    end
               else fst acc !! component).
  { induction comps as [|c comps IH]; intros acc.
    - cbn [fold_left]. rewrite bool_decide_eq_false_2; [reflexivity|].
      apply not_elem_of_nil.
    - cbn [fold_left]. rewrite IH, Hstep.
      destruct (bool_decide_reflect (component ∈ comps)) as [Hin|Hin].
      + rewrite (bool_decide_eq_true_2 (component ∈ c :: comps))
          by (apply elem_of_cons; now right).
        destruct (fs component); [reflexivity|].
        now destruct (bool_decide (c = component)).
      + destruct (bool_decide_reflect (c = component)) as [->|Hne].
        * now rewrite (bool_decide_eq_true_2 (component ∈ component :: comps))
            by (apply elem_of_cons; now left).
        * rewrite (bool_decide_eq_false_2 (component ∈ c :: comps));
            [reflexivity|].
          intros [H|H]%elem_of_cons; [congruence | contradiction]. }
  rewrite Hgen. cbn [fst]. rewrite lookup_empty.
  now destruct (fs component).
Qed.

End Statistics.

(** X17: [analyze_corpus] has an entry for a component exactly when it is
    one of the eight names and its directory exists, and the entry holds
    the statistics of that directory; a directory without any file still
    gets its entry (unlike the upload script, which leaves out a component
    without samples). *)
Theorem X17_analyzed_components
    (float_t : Type) (of_Q : Q -> float_t)
    (fadd fdiv : float_t -> float_t -> float_t)
    (fs : str -> option VerifyStats.listing) (component : str) :
  fst (VerifyStats.analyze_corpus float_t of_Q fadd fdiv fs) !! component
  = if bool_decide (component ∈ VerifyStats.components) then
      (fun dir => fst (VerifyStats.analyze_component float_t of_Q fadd fdiv dir))
        <$> fs component
    else None.
Proof. apply analyze_lookup. Qed.

(** X18: the word total and the file count of a component do not depend
    on the order in which the directory lists its transcripts. *)
Theorem X18_word_total_ignores_listing_order
    (float_t : Type) (of_Q : Q -> float_t)
    (fadd fdiv : float_t -> float_t -> float_t)
    (txts1 txts2 textgrids : list (str * file)) :
  Permutation txts1 txts2 ->
  VerifyStats.words float_t
    (fst (VerifyStats.analyze_component float_t of_Q fadd fdiv
            (VerifyStats.Listing txts1 textgrids)))
  = VerifyStats.words float_t
      (fst (VerifyStats.analyze_component float_t of_Q fadd fdiv
              (VerifyStats.Listing txts2 textgrids)))
  /\ VerifyStats.txt_files float_t
       (fst (VerifyStats.analyze_component float_t of_Q fadd fdiv
               (VerifyStats.Listing txts1 textgrids)))
     = VerifyStats.txt_files float_t
         (fst (VerifyStats.analyze_component float_t of_Q fadd fdiv
                 (VerifyStats.Listing txts2 textgrids))).
Proof.
  intros Hperm. unfold VerifyStats.analyze_component.
  cbn [fst VerifyStats.words VerifyStats.txt_files VerifyStats.txts].
  split.
  - rewrite !count_all_sum. apply list_sum_perm. now apply Permutation_map.
  - now apply Permutation_length.
Qed.

Lemma X18_word_total_ignores_listing_order_witness :
  VerifyStats.words Q
    (fst (VerifyStats.analyze_component Q id Qplus Qdiv
            (VerifyStats.Listing
               [ ("a.txt" : str, example_transcript);
                 ("b.txt" : str, Unreadable "denied") ] [])))
  = VerifyStats.words Q
      (fst (VerifyStats.analyze_component Q id Qplus Qdiv
              (VerifyStats.Listing
                 [ ("b.txt" : str, Unreadable "denied");
                   ("a.txt" : str, example_transcript) ] []))).
Proof.
  apply (X18_word_total_ignores_listing_order Q id Qplus Qdiv
           [ ("a.txt" : str, example_transcript);
             ("b.txt" : str, Unreadable "denied") ]
           [ ("b.txt" : str, Unreadable "denied");
             ("a.txt" : str, example_transcript) ] []).
  apply perm_swap.
Defined.

(** X19: a transcript that cannot be opened, or that has no line at all,
    adds nothing to the word total of its component, yet it is counted
    among the component's txt files and its error line is printed. *)
Theorem X19_unreadable_transcript_in_a_component
    (float_t : Type) (of_Q : Q -> float_t)
    (fadd fdiv : float_t -> float_t -> float_t)
    (txts textgrids : list (str * file)) (path : str) (f : file) :
  (exists msg, f = Unreadable msg) \/ f = Readable [] None ->
  let with_f :=
    VerifyStats.analyze_component float_t of_Q fadd fdiv
      (VerifyStats.Listing (txts ++ [(path, f)]) textgrids) in
  let without :=
    VerifyStats.analyze_component float_t of_Q fadd fdiv
      (VerifyStats.Listing txts textgrids) in
  VerifyStats.words float_t (fst with_f) = VerifyStats.words float_t (fst without)
  /\ VerifyStats.txt_files float_t (fst with_f)
     = S (VerifyStats.txt_files float_t (fst without))
  /\ exists msg, In (error_line path msg) (snd with_f).
Proof.
  intros Hf. cbv zeta. unfold VerifyStats.analyze_component.
  cbn [fst snd VerifyStats.words VerifyStats.txt_files VerifyStats.txts
         VerifyStats.textgrids].
  assert (Hr : exists msg,
             VerifyStats.count_words_from_txt path f
             = (0, [error_line path msg])).
  { destruct Hf as [[msg ->]| ->]; [now exists msg | now exists []]. }
  destruct Hr as (msg & Hr).
  refine (conj _ (conj _ _)).
  - rewrite !count_all_sum, map_app, list_sum_app. cbn [map fst snd].
    rewrite Hr. cbn [fst]. change (list_sum [0]) with 0. lia.
  - rewrite length_app. cbn [length]. lia.
  - exists msg. apply in_or_app. left.
    unfold VerifyStats.count_all. rewrite fold_left_app. cbn [fold_left fst snd].
    rewrite Hr. cbn [snd]. apply in_or_app. right. now left.
Qed.

Lemma X19_unreadable_transcript_in_a_component_witness :
  VerifyStats.words Q
    (fst (VerifyStats.analyze_component Q id Qplus Qdiv
            (VerifyStats.Listing
               ([ ("a.txt" : str, example_transcript) ]
                  ++ [ ("b.txt" : str, Unreadable "denied") ]) [])))
  = VerifyStats.words Q
      (fst (VerifyStats.analyze_component Q id Qplus Qdiv
              (VerifyStats.Listing [ ("a.txt" : str, example_transcript) ] []))).
Proof.
  apply (X19_unreadable_transcript_in_a_component Q id Qplus Qdiv
           [ ("a.txt" : str, example_transcript) ] [] "b.txt"
           (Unreadable "denied")).
  left. now exists ("denied" : str).
Defined.

(** ** Tables without quotes *)
Section Unquoted.

Lemma process_tab (p : Csv.parser) :
  field_state p ->
  Csv.process_char TAB (Some TAB) p
  = Return (Csv.Parser Csv.START_FIELD [] (Csv.fields p ++ [Csv.field p])).
Proof.
  destruct p as [s f fs]. unfold field_state. cbn [Csv.st].
  intros [-> | [-> | ->]]; reflexivity.
Qed.

Lemma process_other (c : ascii) (p : Csv.parser) :
  plain_char c -> c <> TAB -> field_state p ->
  (N.of_nat (length (Csv.field p)) < 131072)%N ->
  Csv.process_char TAB (Some c) p
  = Return (Csv.Parser Csv.IN_FIELD (Csv.field p ++ [c]) (Csv.fields p)).
Proof.
  intros (Hq & Hn & Hr) Ht Hp Hlen. destruct p as [s f fs].
  unfold field_state in Hp. cbn [Csv.st Csv.field Csv.fields] in *.
  assert (Hnl : Csv.is_newline c = false).
  { unfold Csv.is_newline. apply orb_false_iff. split; now apply Ascii.eqb_neq. }
  assert (Hadd : Csv.add_char c (Csv.Parser s f fs)
                 = Return (Csv.Parser s (f ++ [c]) fs)).
  { unfold Csv.add_char, Csv.field_limit. cbn [Csv.field Csv.st Csv.fields].
    now replace (131072 <=? N.of_nat (length f))%N with false
      by (symmetry; apply N.leb_gt; exact Hlen). }
  apply Ascii.eqb_neq in Hq, Ht.
  destruct Hp as [-> | [-> | ->]]; unfold Csv.process_char; cbn [Csv.st];
    rewrite ?Hnl, ?Hq, ?Ht, Hadd; reflexivity.
Qed.

Lemma feed_app (cs1 cs2 : list (option ascii)) :
  forall p,
    Csv.feed TAB (cs1 ++ cs2) p
    = match Csv.feed TAB cs1 p with
      | Return p' => Csv.feed TAB cs2 p'
      | Raise e => Raise e
      end.
Proof.
  induction cs1 as [|c cs1 IH]; intros p; [reflexivity|].
  cbn [app Csv.feed]. destruct (Csv.process_char TAB c p); [apply IH|reflexivity].
Qed.

(** Feeding the characters of an unquoted line fills the fields the way
    splitting at tabs does. *)
Lemma feed_plain (s : str) :
  forall (p : Csv.parser) (w : str) (ws : list str),
    Forall plain_char s -> field_state p ->
    split_on TAB s = w :: ws ->
    short (Csv.field p ++ w) -> Forall short ws ->
    exists p',
      Csv.feed TAB (map Some s) p = Return p'
      /\ (Csv.st p' = Csv.START_FIELD \/ Csv.st p' = Csv.IN_FIELD
          \/ (s = [] /\ p' = p))
      /\ Csv.fields p' ++ [Csv.field p']
         = Csv.fields p ++ (Csv.field p ++ w) :: ws.
Proof.
  induction s as [|c s IH]; intros p w ws Hs Hp Hsplit Hw Hws.
  - injection Hsplit as <- <-. exists p. split; [reflexivity|].
    split; [now right; right|]. now rewrite app_nil_r.
  - apply List.Forall_cons_iff in Hs as [Hc Hs]. cbn [split_on] in Hsplit.
    cbn [map Csv.feed].
    destruct (Ascii.eqb_spec c TAB) as [->|Hne].
    + injection Hsplit as <- Hsplit. rewrite process_tab by exact Hp.
      destruct ws as [|w' ws']; [now apply split_on_nonempty in Hsplit|].
      apply List.Forall_cons_iff in Hws as [Hw' Hws'].
      destruct (IH (Csv.Parser Csv.START_FIELD []
                      (Csv.fields p ++ [Csv.field p])) w' ws' Hs
                  ltac:(right; now left) Hsplit Hw' Hws')
        as (p' & Hfeed & Hst & Hfields).
      exists p'. split; [exact Hfeed|]. split.
      * destruct Hst as [H | [H | [_ ->]]];
          [now left | now right; left | now left].
      * rewrite Hfields. cbn [Csv.fields Csv.field app].
        now rewrite app_nil_r, <- app_assoc.
    + destruct (split_on TAB s) as [|w' ws'] eqn:Hsp;
        [now apply split_on_nonempty in Hsp|].
      injection Hsplit as <- <-.
      rewrite process_other; [|exact Hc|exact Hne|exact Hp|].
      2:{ unfold short in Hw. rewrite length_app in Hw. cbn [length] in Hw. lia. }
      destruct (IH (Csv.Parser Csv.IN_FIELD (Csv.field p ++ [c]) (Csv.fields p))
                  w' ws' Hs ltac:(right; now right) eq_refl
                  ltac:(cbn [Csv.field]; now rewrite <- app_assoc) Hws)
        as (p' & Hfeed & Hst & Hfields).
      exists p'. split; [exact Hfeed|]. split.
      * destruct Hst as [H | [H | [_ ->]]];
          [now left | now right; left | now right; left].
      * rewrite Hfields. cbn [Csv.fields Csv.field]. now rewrite <- app_assoc.
Qed.

Lemma unquoted_plain (s : str) : unquoted s -> Forall plain_char s.
Proof.
  intros (Hq & Hn & Hr & _). apply List.Forall_forall. intros c Hc.
  repeat split; intros ->; contradiction.
Qed.

(** One unquoted line gives one record: its fields. *)
Lemma feed_line (s : str) :
  unquoted s ->
  Csv.feed TAB (map Some (s ++ [NL]) ++ [None]) Csv.reset
  = Return (Csv.Parser Csv.START_RECORD [] (record_of s)).
Proof.
  intros Hs. destruct s as [|c s]; [reflexivity|].
  rewrite map_app, <- app_assoc, feed_app.
  destruct (split_on TAB (c :: s)) as [|w ws] eqn:Hsplit;
    [now apply split_on_nonempty in Hsplit|].
  pose proof Hs as (_ & _ & _ & Hshort). rewrite Hsplit in Hshort.
  apply List.Forall_cons_iff in Hshort as [Hw Hws].
  destruct (feed_plain (c :: s) Csv.reset w ws (unquoted_plain _ Hs)
              ltac:(now left) Hsplit Hw Hws)
    as (p' & -> & Hst & Hfields).
  cbn [Csv.reset Csv.fields Csv.field app] in Hfields.
  cbn [record_of]. rewrite Hsplit, <- Hfields.
  destruct p' as [st f fs]. cbn [Csv.st Csv.fields Csv.field] in *.
  destruct Hst as [-> | [-> | [H _]]];
    [reflexivity | reflexivity | discriminate].
Qed.

Lemma read_unquoted (lines : list str) :
  forall acc,
    Forall unquoted lines ->
    Csv.read_records TAB (map (fun s => s ++ [NL]) lines) None Csv.reset acc
    = (acc ++ map record_of lines, Return tt).
Proof.
  induction lines as [|s lines IH]; intros acc H.
  - cbn. now rewrite app_nil_r.
  - apply List.Forall_cons_iff in H as [Hs H].
    cbn [map Csv.read_records]. rewrite feed_line by exact Hs.
    cbn [Csv.at_start Csv.st Csv.fields]. rewrite IH by exact H.
    now rewrite <- app_assoc.
Qed.

End Unquoted.

(** X20: on a metadata table whose lines hold no double quote,
    [load_metadata] reads every line by splitting it at the tabs: the
    first line gives the column names, blank lines are passed over, and
    the mapping is built from the rows of the other lines in their
    order. *)
Theorem X20_load_metadata_splits_lines_at_tabs
    (path header : str) (data : list str) (others : list (str * file)) :
  Forall unquoted (header :: data) ->
  PushToHuggingface.load_metadata
    ((path, table_file (header :: data)) :: others)
  = fold_left PushToHuggingface.add_row
      (map (Csv.make_row (record_of header))
         (List.filter (fun record => negb (bool_decide (record = [])))
            (map record_of data)))
      ∅.
Proof.
  intros H. unfold PushToHuggingface.load_metadata, table_file.
  cbn [open]. unfold Csv.DictReader, Csv.reader. cbn [pending failure].
  rewrite read_unquoted by exact H. reflexivity.
Qed.

Lemma X20_load_metadata_splits_lines_at_tabs_witness :
  PushToHuggingface.load_metadata
    [ ("ATL_metadata.txt" : str,
       table_file [ "CORAAL.File" ++ [TAB] ++ "Age";
                    [];
                    "ATL_se0_ag1_f_01" ++ [TAB] ++ "19" ]) ]
  = fold_left PushToHuggingface.add_row
      (map (Csv.make_row (record_of ("CORAAL.File" ++ [TAB] ++ "Age")))
         (List.filter (fun record => negb (bool_decide (record = [])))
            (map record_of [ []; "ATL_se0_ag1_f_01" ++ [TAB] ++ "19" ])))
      ∅.
Proof.
  apply (X20_load_metadata_splits_lines_at_tabs "ATL_metadata.txt"
           ("CORAAL.File" ++ [TAB] ++ "Age")
           [ []; "ATL_se0_ag1_f_01" ++ [TAB] ++ "19" ] []).
  repeat constructor; vm_compute; try (intuition discriminate);
    repeat constructor; discriminate.
Defined.

(** ** What a row holds *)
Section RowContent.

Lemma zip_fold_none (kvs : list (str * str)) :
  forall d : gmap (option str) Csv.value,
    fold_left (fun d kv => <[Some (fst kv) := Csv.VStr (snd kv)]> d) kvs d
      !! None = d !! None.
Proof.
  induction kvs as [|kv kvs IH]; intros d; [reflexivity|].
  cbn [fold_left]. rewrite IH. now apply lookup_insert_ne.
Qed.

Lemma zip_fold_other (k : str) (fieldnames : list str) :
  forall (record : list str) (d : gmap (option str) Csv.value),
    ~ In k fieldnames ->
    fold_left (fun d kv => <[Some (fst kv) := Csv.VStr (snd kv)]> d)
      (combine fieldnames record) d !! Some k = d !! Some k.
Proof.
  induction fieldnames as [|k0 fieldnames IH]; intros record d Hk;
    [reflexivity|].
  destruct record as [|v0 record]; [reflexivity|].
  cbn [combine fold_left fst snd]. rewrite IH by (intros H; apply Hk; now right).
  apply lookup_insert_ne. intros [= ->]. apply Hk. now left.
Qed.

(** After the zip, a column name holds the field at its own position. *)
Lemma zip_fold_lookup (fieldnames : list str) :
  forall (record : list str) (d : gmap (option str) Csv.value) (i : nat)
         (k : str),
    NoDup fieldnames ->
    fieldnames !! i = Some k ->
    fold_left (fun d kv => <[Some (fst kv) := Csv.VStr (snd kv)]> d)
      (combine fieldnames record) d !! Some k
    = match record !! i with
      | Some v => Some (Csv.VStr v)
      | None => d !! Some k
      end.
Proof.
  induction fieldnames as [|k0 fieldnames IH]; intros record d i k Hnd Hi;
    [discriminate|].
  apply NoDup_cons in Hnd as [Hk0 Hnd].
  destruct record as [|v0 record].
  - cbn. now destruct i.
  - cbn [combine fold_left fst snd]. destruct i as [|i].
    + injection Hi as ->. cbn [lookup list_lookup].
      rewrite zip_fold_other.
      * apply lookup_insert_eq.
      * intros H. apply Hk0. now apply list_elem_of_In.
    + cbn [lookup list_lookup] in Hi |- *.
      rewrite (IH record _ i k Hnd Hi).
      destruct (record !! i); [reflexivity|].
      apply lookup_insert_ne. intros [= ->]. apply Hk0.
      now apply list_elem_of_lookup_2 in Hi.
Qed.

Lemma pad_fold_none (keys : list str) :
  forall d : gmap (option str) Csv.value,
    fold_left (fun d key => <[Some key := Csv.VNone]> d) keys d !! None
    = d !! None.
Proof.
  induction keys as [|k0 keys IH]; intros d; [reflexivity|].
  cbn [fold_left]. rewrite IH. now apply lookup_insert_ne.
Qed.

Lemma pad_fold_other (k : str) (keys : list str) :
  forall d : gmap (option str) Csv.value,
    ~ In k keys ->
    fold_left (fun d key => <[Some key := Csv.VNone]> d) keys d !! Some k
    = d !! Some k.
Proof.
  induction keys as [|k0 keys IH]; intros d Hk; [reflexivity|].
  cbn [fold_left]. rewrite IH by (intros H; apply Hk; now right).
  apply lookup_insert_ne. intros [= ->]. apply Hk. now left.
Qed.

Lemma pad_fold_in (k : str) (keys : list str) :
  forall d : gmap (option str) Csv.value,
    In k keys ->
    fold_left (fun d key => <[Some key := Csv.VNone]> d) keys d !! Some k
    = Some Csv.VNone.
Proof.
  induction keys as [|k0 keys IH]; intros d Hk; [destruct Hk|].
  cbn [fold_left]. destruct (decide (k ∈ keys)) as [Hin|Hin].
  - apply IH. now apply list_elem_of_In.
  - rewrite list_elem_of_In in Hin.
    destruct Hk as [->|Hk]; [|contradiction].
    rewrite pad_fold_other by exact Hin. apply lookup_insert_eq.
Qed.

End RowContent.

(** X21: a row that [load_metadata] gets from the reader, for a header
    with distinct column names, maps each column name to the field at
    its position in the record, and to [None] when the record is too
    short to reach it; fields beyond the header are kept as a list under
    the key [None], and a row has no other key. *)
Theorem X21_row_holds_the_fields_by_column
    (fieldnames record : list str) :
  NoDup fieldnames ->
  (forall i k,
      fieldnames !! i = Some k ->
      Csv.make_row fieldnames record !! Some k
      = Some (match record !! i with
              | Some v => Csv.VStr v
              | None => Csv.VNone
              end))
  /\ Csv.make_row fieldnames record !! None
     = (if (length fieldnames <? length record)%nat
        then Some (Csv.VList (drop (length fieldnames) record))
        else None)
  /\ (forall k, ~ In k fieldnames ->
                Csv.make_row fieldnames record !! Some k = None).
Proof.
  intros Hnd. unfold Csv.make_row. cbv zeta.
  refine (conj _ (conj _ _)).
  - intros i k Hi.
    pose proof (lookup_lt_Some _ _ _ Hi) as Hlt.
    destruct (length fieldnames <? length record)%nat eqn:H1.
    + apply Nat.ltb_lt in H1. rewrite lookup_insert_ne by discriminate.
      rewrite (zip_fold_lookup fieldnames record ∅ i k Hnd Hi).
      destruct (record !! i) eqn:Hr; [reflexivity|].
      apply lookup_ge_None in Hr. lia.
    + apply Nat.ltb_ge in H1.
      destruct (length record <? length fieldnames)%nat eqn:H2.
      * apply Nat.ltb_lt in H2.
        destruct (record !! i) as [v|] eqn:Hr.
        -- pose proof (lookup_lt_Some _ _ _ Hr) as Hri.
           rewrite pad_fold_other.
           ++ now rewrite (zip_fold_lookup fieldnames record ∅ i k Hnd Hi), Hr.
           ++ intros Hin. apply list_elem_of_In, list_elem_of_lookup in Hin
                as (j & Hj).
              rewrite lookup_drop in Hj.
              pose proof (proj1 (NoDup_alt fieldnames) Hnd _ _ _ Hi Hj). lia.
        -- apply lookup_ge_None in Hr. apply pad_fold_in.
           apply list_elem_of_In, list_elem_of_lookup.
           exists (i - length record). rewrite lookup_drop.
           now replace (length record + (i - length record)) with i by lia.
      * apply Nat.ltb_ge in H2.
        rewrite (zip_fold_lookup fieldnames record ∅ i k Hnd Hi).
        destruct (record !! i) eqn:Hr; [reflexivity|].
        apply lookup_ge_None in Hr. lia.
  - destruct (length fieldnames <? length record)%nat.
    + apply lookup_insert_eq.
    + destruct (length record <? length fieldnames)%nat.
      * now rewrite pad_fold_none, zip_fold_none.
      * now rewrite zip_fold_none.
  - intros k Hk.
    destruct (length fieldnames <? length record)%nat.
    + rewrite lookup_insert_ne by discriminate.
      now rewrite zip_fold_other.
    + destruct (length record <? length fieldnames)%nat.
      * rewrite pad_fold_other.
        -- now rewrite zip_fold_other.
        -- intros Hin. apply Hk.
           rewrite <- (firstn_skipn (length record) fieldnames).
           apply in_or_app. now right.
      * now rewrite zip_fold_other.
Qed.

Lemma X21_row_holds_the_fields_by_column_witness :
  Csv.make_row [ "CORAAL.File" : str; "Age" : str; "Gender" : str ]
    [ "ATL_se0_ag1_f_01" : str; "19" : str ] !! Some ("Gender" : str)
  = Some Csv.VNone.
Proof.
  apply (proj1 (X21_row_holds_the_fields_by_column
                  [ "CORAAL.File" : str; "Age" : str; "Gender" : str ]
                  [ "ATL_se0_ag1_f_01" : str; "19" : str ]
                  ltac:(apply (bool_decide_unpack _); vm_compute;
                        exact I))
           2 ("Gender" : str)).
  reflexivity.
Defined.

(** X22: for an audio file [<dir>/<stem>.<ext>] the transcript the
    upload script looks for is [<dir>/<stem>.txt]: same directory, same
    stem, so the sample's [file_id] is also the stem of its transcript. *)
Theorem X22_transcript_path_of_an_audio_file (dir stem_ ext : str) :
  stem_ <> [] -> ext <> [] ->
  ~ In "/"%char stem_ -> ~ In "/"%char ext -> ~ In "."%char ext ->
  Pathlib.with_suffix (dir ++ "/" ++ stem_ ++ "." ++ ext) ".txt"
  = dir ++ "/" ++ stem_ ++ ".txt"
  /\ Pathlib.stem (dir ++ "/" ++ stem_ ++ ".txt")
     = Pathlib.stem (dir ++ "/" ++ stem_ ++ "." ++ ext).
Proof.
  intros Hs He Hs1 He1 He2.
  change (dir ++ "/" ++ stem_ ++ "." ++ ext)
    with (dir ++ "/"%char :: stem_ ++ "."%char :: ext).
  change (dir ++ "/" ++ stem_ ++ ".txt")
    with (dir ++ "/"%char :: stem_ ++ "."%char :: "txt").
  pose proof (convention_stem dir stem_ ext Hs He Hs1 He1 He2) as [Hstem _].
  assert (Htxt : Pathlib.stem (dir ++ "/"%char :: stem_ ++ "."%char :: "txt")
                 = stem_).
  { apply convention_stem; try assumption; try discriminate;
      vm_compute; intuition discriminate. }
  split; [|now rewrite Htxt, Hstem].
  unfold Pathlib.with_suffix, Pathlib.suffix. rewrite Hstem.
  assert (Hname : Pathlib.name (dir ++ "/"%char :: stem_ ++ "."%char :: ext)
                  = stem_ ++ "."%char :: ext).
  { apply name_last_component.
    - now destruct stem_.
    - destruct stem_ as [|a [|b stem_]]; [congruence| |discriminate].
      destruct ext; [congruence | discriminate].
    - intros H. apply in_app_or in H as [H|[H|H]];
        [now apply Hs1 | discriminate | now apply He1]. }
  rewrite Hname, drop_app_length.
  replace (dir ++ "/"%char :: stem_ ++ "."%char :: ext)
    with ((dir ++ "/"%char :: stem_) ++ "."%char :: ext)
    by (rewrite <- app_assoc; reflexivity).
  replace (length ((dir ++ "/"%char :: stem_) ++ "."%char :: ext)
           - length ("."%char :: ext))
    with (length (dir ++ "/"%char :: stem_))
    by (rewrite !length_app; cbn [length]; lia).
  rewrite take_app_length, <- app_assoc. reflexivity.
Qed.

Lemma X22_transcript_path_of_an_audio_file_witness :
  Pathlib.with_suffix ("ATL" ++ "/" ++ "ATL_se0_ag1_f_01_1" ++ "." ++ "wav")
    ".txt"
  = "ATL" ++ "/" ++ "ATL_se0_ag1_f_01_1" ++ ".txt".
Proof.
  apply (X22_transcript_path_of_an_audio_file "ATL" "ATL_se0_ag1_f_01_1" "wav").
  - discriminate.
  - discriminate.
  - vm_compute. intuition discriminate.
  - vm_compute. intuition discriminate.
  - vm_compute. intuition discriminate.
Defined.
